(** * Verification of [scripts/prepare_tweet_contents.py]

    A shallow embedding of the tweet-id extraction and batched-fetch script
    of the Japanese fact-checking dataset, and the properties of its
    extractor, collector, chunker, batch fetcher, media resolver and
    command entry point.

    Conventions of the embedding:
    - a Python [str] is a [string]; a [Set[str]] is a duplicate-free list
      (the script sorts a set before it ever iterates over it);
    - a decoded JSON document is a [json] tree, objects as association
      lists in document order;
    - a Python call that may raise returns an [outcome];
    - the outside world (HTTP replies, the file system, the environment)
      is a record of oracles, and the effects a function performs are
      returned as a list of [event]s, oldest first. *)

From Stdlib Require Import String Ascii List ZArith Bool Arith Lia.
From Stdlib Require Import DecimalString.
From Stdlib Require Import Sorting.Sorted Sorting.Permutation.
Import ListNotations.
Local Open Scope string_scope.
Local Open Scope list_scope.
Local Open Scope nat_scope.

(* ================================================================== *)
(** * Part I: the program *)
(* ================================================================== *)

(** ** Exceptions and outcomes *)

Inductive exn : Type :=
| ValueError
| TypeError
| AttributeError
| OSError
| UnicodeDecodeError
| KeyError
| IndexError
| JSONDecodeError
| RequestException.

Inductive outcome (A : Type) : Type :=
| Returns (a : A)
| Raises (e : exn).
Arguments Returns {A} a.
Arguments Raises {A} e.

Definition bind {A B} (m : outcome A) (k : A -> outcome B) : outcome B :=
  match m with
  | Returns a => k a
  | Raises e => Raises e
  end.

Notation "x <- m ;; k" := (bind m (fun x => k))
  (at level 61, m at next level, right associativity).

(** ** Python sequences *)

(** [lst[lo:hi]] for [0 <= lo <= hi]; bounds past the end are clamped. *)
Definition slice {A} (lst : list A) (lo hi : nat) : list A :=
  firstn (hi - lo) (skipn lo lst).

(** The elements [i, i+step, i+2*step, ...] below [stop] ([step > 0]).
    [fuel] bounds the number of elements; [stop] is always enough. *)
Fixpoint range_from (fuel i stop step : nat) : list nat :=
  match fuel with
  | O => []
  | S fuel' =>
      if i <? stop then i :: range_from fuel' (i + step) stop step else []
  end.

(** [range(0, stop, step)]: a zero step raises, a negative one is empty. *)
Definition py_range (stop : nat) (step : Z) : outcome (list nat) :=
  if (step =? 0)%Z then Raises ValueError
  else if (step <? 0)%Z then Returns []
  else Returns (range_from stop 0 stop (Z.to_nat step)).

(** ** Chunker *)

(** [chunk_list(lst, chunk_size)]:
    [[lst[i : i + chunk_size] for i in range(0, len(lst), chunk_size)]]. *)
Definition chunk_list {A} (lst : list A) (chunk_size : Z)
  : outcome (list (list A)) :=
  idxs <- py_range (length lst) chunk_size ;;
  Returns (map (fun i => slice lst i (i + Z.to_nat chunk_size)) idxs).

(** ** Substring tests *)

(** [sub in s] on strings. *)
Fixpoint str_in (sub s : string) : bool :=
  prefix sub s ||
  match s with
  | EmptyString => false
  | String _ s' => str_in sub s'
  end.

(** [s.endswith(suf)]; used to state the suffix reading of the spec. *)
Fixpoint endswith (s suf : string) : bool :=
  (s =? suf)%string ||
  match s with
  | EmptyString => false
  | String _ s' => endswith s' suf
  end.

(** ** Regular expressions

    The two patterns of the extractor are written with backtracking
    matcher combinators: a matcher takes the rest of the subject and
    returns group 1 of the first match the backtracking search finds.
    The tables of the classes [\w] and [\d] belong to Python's [re]
    module (they cover Unicode); they are parameters of the program. *)

Definition matcher : Type := string -> option string.

(** A literal piece of a pattern. *)
Fixpoint lit (l : string) (k : matcher) (s : string) : option string :=
  match l with
  | EmptyString => k s
  | String c l' =>
      match s with
      | EmptyString => None
      | String d s' => if (c =? d)%char then lit l' k s' else None
      end
  end.

(** [r?], greedy: with [r] first, then without. *)
Definition opt (r : matcher -> matcher) (k : matcher) : matcher :=
  fun s => match r k s with Some g => Some g | None => k s end.

(** [(?:r1|r2)], ordered choice. *)
Definition alt (r1 r2 : matcher -> matcher) (k : matcher) : matcher :=
  fun s => match r1 k s with Some g => Some g | None => r2 k s end.

(** [c*] for a character class, greedy with backtracking. *)
Fixpoint star (p : ascii -> bool) (k : matcher) (s : string) : option string :=
  match s with
  | EmptyString => k s
  | String c s' =>
      if p c then match star p k s' with Some g => Some g | None => k s end
      else k s
  end.

(** [c+] for a character class. *)
Definition plus (p : ascii -> bool) (k : matcher) : matcher :=
  fun s =>
    match s with
    | EmptyString => None
    | String c s' => if p c then star p k s' else None
    end.

(** The longest run of characters of a class at the head of a string. *)
Fixpoint run (p : ascii -> bool) (s : string) : string :=
  match s with
  | EmptyString => EmptyString
  | String c s' => if p c then String c (run p s') else EmptyString
  end.

(** [(c+)] closing a pattern: greedy, and with nothing after the group the
    longest run is the one the search keeps. *)
Definition group_plus (p : ascii -> bool) : matcher :=
  fun s => match run p s with EmptyString => None | g => Some g end.

(** [re.search]: the leftmost position at which the pattern matches. *)
Fixpoint re_search (m : matcher) (s : string) : option string :=
  match m s with
  | Some g => Some g
  | None =>
      match s with
      | EmptyString => None
      | String _ s' => re_search m s'
      end
  end.

Section Extractor.
Variables is_word is_digit : ascii -> bool.

(** [https?://(?:twitter\.com|x\.com)/\w+/status/(\d+)] *)
Definition pattern_user : matcher :=
  lit "http" (opt (lit "s") (lit "://"
    (alt (lit "twitter.com") (lit "x.com")
      (lit "/" (plus is_word (lit "/status/" (group_plus is_digit))))))).

(** [https?://(?:twitter\.com|x\.com)/i/status/(\d+)] *)
Definition pattern_i : matcher :=
  lit "http" (opt (lit "s") (lit "://"
    (alt (lit "twitter.com") (lit "x.com")
      (lit "/i/status/" (group_plus is_digit))))).

Definition patterns : list matcher := [pattern_user; pattern_i].

Fixpoint first_match (ps : list matcher) (url : string) : option string :=
  match ps with
  | [] => None
  | pattern :: ps' =>
      match re_search pattern url with
      | Some g => Some g
      | None => first_match ps' url
      end
  end.

Definition extract_tweet_id_from_url (url : string) : option string :=
  first_match patterns url.
End Extractor.

(** The classes on the ASCII range, to run the extractor on examples. *)
Definition ascii_digit (c : ascii) : bool :=
  (48 <=? nat_of_ascii c) && (nat_of_ascii c <=? 57).

Definition ascii_word (c : ascii) : bool :=
  ascii_digit c
  || ((65 <=? nat_of_ascii c) && (nat_of_ascii c <=? 90))
  || ((97 <=? nat_of_ascii c) && (nat_of_ascii c <=? 122))
  || (nat_of_ascii c =? 95).

(** ** Decoded JSON and the Python operations the script applies to it

    Numbers are the integers (identifiers and bit rates; the script asks
    the API for no fractional field).  A [JObj] lists the items of a
    [dict] in insertion order, its keys pairwise distinct; [None] is
    [JNull]. *)

#[local] Set Warnings "-register-all".
Inductive json : Type :=
| JNull
| JBool (b : bool)
| JNum (n : Z)
| JStr (s : string)
| JArr (items : list json)
| JObj (fields : list (string * json)).

Fixpoint assoc {V} (k : string) (d : list (string * V)) : option V :=
  match d with
  | [] => None
  | (k', v) :: d' => if (k' =? k)%string then Some v else assoc k d'
  end.

(** [bool(x)] *)
Definition truthy (x : json) : bool :=
  match x with
  | JNull => false
  | JBool b => b
  | JNum n => negb (n =? 0)%Z
  | JStr s => negb (s =? "")%string
  | JArr items => match items with [] => false | _ => true end
  | JObj fields => match fields with [] => false | _ => true end
  end.

(** [x.get(key, default)]: only a [dict] has the method. *)
Definition py_get (x : json) (key : string) (default : json) : outcome json :=
  match x with
  | JObj fields =>
      Returns (match assoc key fields with Some v => v | None => default end)
  | _ => Raises AttributeError
  end.

(** [key in x] for a string [key]. *)
Definition py_contains (key : string) (x : json) : outcome bool :=
  match x with
  | JObj fields =>
      Returns (match assoc key fields with Some _ => true | None => false end)
  | JArr items =>
      Returns (existsb (fun y => match y with
                                 | JStr s => (s =? key)%string
                                 | _ => false
                                 end) items)
  | JStr s => Returns (str_in key s)
  | _ => Raises TypeError
  end.

(** [x[key]] for a string [key]. *)
Definition py_getitem (x : json) (key : string) : outcome json :=
  match x with
  | JObj fields =>
      match assoc key fields with Some v => Returns v | None => Raises KeyError end
  | _ => Raises TypeError
  end.

(** [x[0]] for a truthy [x]. *)
Definition py_first (x : json) : outcome json :=
  match x with
  | JArr (y :: _) => Returns y
  | JArr [] => Raises IndexError
  | JStr (String c _) => Returns (JStr (String c EmptyString))
  | JStr EmptyString => Raises IndexError
  | JObj _ => Raises KeyError
  | _ => Raises TypeError
  end.

(** [len(x)] *)
Definition py_len (x : json) : outcome nat :=
  match x with
  | JArr items => Returns (length items)
  | JObj fields => Returns (length fields)
  | JStr s => Returns (String.length s)
  | _ => Raises TypeError
  end.

(** The elements [for y in x] visits. *)
Definition py_iter (x : json) : outcome (list json) :=
  match x with
  | JArr items => Returns items
  | JObj fields => Returns (map (fun kv => JStr (fst kv)) fields)
  | JStr s =>
      Returns (map (fun c => JStr (String c EmptyString)) (list_ascii_of_string s))
  | _ => Raises TypeError
  end.

(** The integer value of a number; [bool] is a subclass of [int]. *)
Definition py_int (x : json) : option Z :=
  match x with
  | JNum n => Some n
  | JBool b => Some (if b then 1 else 0)%Z
  | _ => None
  end.

(** [x > y] where [y] is a number (the only use in the script). *)
Definition py_gt (x y : json) : outcome bool :=
  match py_int x, py_int y with
  | Some a, Some b => Returns (b <? a)%Z
  | _, _ => Raises TypeError
  end.

(** [x == y] *)
Fixpoint py_eq (x y : json) {struct x} : bool :=
  match x, y with
  | JNull, JNull => true
  | JBool a, JBool b => Bool.eqb a b
  | JBool a, JNum n | JNum n, JBool a => (n =? (if a then 1 else 0))%Z
  | JNum a, JNum b => (a =? b)%Z
  | JStr a, JStr b => (a =? b)%string
  | JArr xs, JArr ys =>
      (fix all2 (xs ys : list json) {struct xs} : bool :=
         match xs, ys with
         | [], [] => true
         | x' :: xs', y' :: ys' => py_eq x' y' && all2 xs' ys'
         | _, _ => false
         end) xs ys
  | JObj fx, JObj fy =>
      (length fx =? length fy) &&
      (fix sub (fx : list (string * json)) {struct fx} : bool :=
         match fx with
         | [] => true
         | (k, v) :: fx' =>
             (fix find (fy : list (string * json)) : bool :=
                match fy with
                | [] => false
                | (k', v') :: fy' =>
                    if (k' =? k)%string then py_eq v v' else find fy'
                end) fy
             && sub fx'
         end) fx
  | _, _ => false
  end.

(** ** Media extension *)

(** [get_media_extension(media_type, url)].  The caller passes whatever
    the descriptor holds under its URL key, so [url] is a [json]. *)
Definition get_media_extension (media_type : string) (url : json)
  : outcome string :=
  if (media_type =? "photo")%string then
    jpg <- py_contains ".jpg" url ;;
    jpeg <- (if jpg then Returns true else py_contains ".jpeg" url) ;;
    if jpeg then Returns ".jpg"
    else
      png <- py_contains ".png" url ;;
      if png then Returns ".png"
      else
        webp <- py_contains ".webp" url ;;
        if webp then Returns ".webp" else Returns ".jpg"
  else if (media_type =? "video")%string then Returns ".mp4"
  else if (media_type =? "animated_gif")%string then Returns ".gif"
  else Returns ".bin".

(** The extension the specification describes for a photo: chosen by the
    suffix of the URL, [.jpg] when none of the four is the suffix. *)
Definition photo_extension_by_suffix (url : string) : string :=
  if endswith url ".jpg" || endswith url ".jpeg" then ".jpg"
  else if endswith url ".png" then ".png"
  else if endswith url ".webp" then ".webp"
  else ".jpg".

(** ** CSV rows as [csv.DictReader] presents them

    The reader takes the first row as the field names, drops rows with no
    cell at all, and pairs the cells of every other row with the field
    names: a repeated name keeps its last cell, a name past the end of a
    short row holds [None], and surplus cells are filed under the key
    [None], which no column name equals. *)

Definition cell : Type := option string.

Fixpoint dict_set {V} (k : string) (v : V) (d : list (string * V))
  : list (string * V) :=
  match d with
  | [] => [(k, v)]
  | (k', v') :: d' =>
      if (k' =? k)%string then (k, v) :: d' else (k', v') :: dict_set k v d'
  end.

Fixpoint zip_row (fieldnames row : list string) (d : list (string * cell))
  : list (string * cell) :=
  match fieldnames, row with
  | [], _ => d
  | f :: fs, c :: cs => zip_row fs cs (dict_set f (Some c) d)
  | f :: fs, [] => zip_row fs [] (dict_set f None d)
  end.

Definition DictReader (rows : list (list string))
  : list (list (string * cell)) :=
  match rows with
  | [] => []
  | fieldnames :: body =>
      map (fun row => zip_row fieldnames row [])
          (filter (fun row => match row with [] => false | _ => true end) body)
  end.

(** ** Sets of identifiers *)

(** [ids.add(x)] *)
Definition set_add (x : string) (ids : list string) : list string :=
  if existsb (String.eqb x) ids then ids else ids ++ [x].

Fixpoint insert_sorted (x : string) (l : list string) : list string :=
  match l with
  | [] => [x]
  | y :: l' => if (x <=? y)%string then x :: l else y :: insert_sorted x l'
  end.

(** [sorted(list(ids))], strings in code-point order. *)
Definition sorted (ids : list string) : list string :=
  fold_right insert_sorted [] ids.

(** ** The outside world *)

(** A [pathlib.Path] by the operands of its joins: [Path(a) / b / c] is
    [[a; b; c]].  Where such a path lies is a matter of how [pathlib]
    joins the operands, see [lexical] below. *)
Definition path : Type := list string.

(** What the request of one batch comes to, seen from the [try] block of
    [get_posts_from_x_api]. *)
Inductive api_reply : Type :=
| ConnectionFailed              (* [requests.get] raised: transport error *)
| ErrorStatus (status : Z)      (* [raise_for_status] raised: error status *)
| InvalidBody (e : exn)         (* [response.json()] raised [e] *)
| Body (doc : json).            (* [response.json()] returned [doc] *)

Record World : Type := {
  getenv : string -> option string;
  path_exists : path -> bool;
  (** opening and reading a CSV file: its rows, or the error raised *)
  read_csv : string -> outcome (list (list string));
  (** opening a file and [json.load] *)
  read_json : path -> outcome json;
  (** [mkdir(parents, exist_ok=True)] succeeds *)
  fs_mkdir : bool -> path -> bool;
  (** opening for writing and writing succeed *)
  fs_write : path -> bool;
  (** the reply to the [n]-th request of the run, for a token and
      identifiers *)
  x_api : nat -> string -> list string -> api_reply;
  (** the GET of a media URL succeeds with a success status *)
  media_get : json -> bool
}.

(** The requests, pauses and writes a run attempts, as it attempts them. *)
Inductive event : Type :=
| EApiGet (ids : list string)
| ESleep (seconds : Z)
| EMkdir (parents : bool) (p : path)
| EWriteCsv (p : path) (rows : list (list string))
| EWriteJson (p : path) (doc : json)
| EMediaGet (url : json)
| EWriteMedia (p : path) (url : json).

(** A computation with effects: its outcome and the events it performed,
    oldest first.  Events performed before a raise are kept. *)
Definition eff (A : Type) : Type := (outcome A * list event)%type.

Definition ret {A} (a : A) : eff A := (Returns a, []).
Definition raise {A} (e : exn) : eff A := (Raises e, []).
Definition lift {A} (o : outcome A) : eff A := (o, []).

Definition bindE {A B} (m : eff A) (k : A -> eff B) : eff B :=
  match fst m with
  | Returns a => (fst (k a), snd m ++ snd (k a))
  | Raises e => (Raises e, snd m)
  end.

Notation "x <~ m ;; k" := (bindE m (fun x => k))
  (at level 61, m at next level, right associativity).

(** [for x in l: s = f(s, x)] *)
Fixpoint for_each {S A} (f : S -> A -> eff S) (l : list A) (s : S) : eff S :=
  match l with
  | [] => ret s
  | x :: l' => s' <~ f s x ;; for_each f l' s'
  end.

Definition mkdir (w : World) (parents : bool) (p : path) : eff unit :=
  (if fs_mkdir w parents p then Returns tt else Raises OSError,
   [EMkdir parents p]).

Definition write_file (w : World) (p : path) (ev : event) : eff unit :=
  (if fs_write w p then Returns tt else Raises OSError, [ev]).

(** [f"{prefix}{n}"] *)
Definition numbered (prefix : string) (n : nat) : string :=
  (prefix ++ NilZero.string_of_uint (Nat.to_uint n))%string.

(** ** Persistence of the identifier list *)

Definition save_tweet_ids (w : World) (tweet_ids : list string)
    (output_dir : string) : eff unit :=
  let output_path := [output_dir] in
  _ <~ mkdir w false output_path ;;
  let sorted_tweet_ids := sorted tweet_ids in
  let csv_file := output_path ++ ["tweet_ids.csv"] in
  write_file w csv_file
    (EWriteCsv csv_file (["tweet_id"] :: map (fun id => [id]) sorted_tweet_ids)).

(** ** One request to the API *)

Definition get_posts_from_x_api (w : World) (n : nat)
    (tweet_ids : list string) (bearer_token : string) (output_dir : string)
  : eff json :=
  _ <~ (Returns tt, [EApiGet tweet_ids]) ;;
  match x_api w n bearer_token tweet_ids with
  | ConnectionFailed => ret (JObj [])
  | ErrorStatus _ => ret (JObj [])
  | InvalidBody RequestException => ret (JObj [])
  | InvalidBody e => raise e
  | Body doc => ret doc
  end.

(** ** Media download *)

Definition download_media_file (w : World) (url : json) (filepath : path)
  : bool * list event :=
  if media_get w url then
    if fs_mkdir w true (removelast filepath) then
      (fs_write w filepath,
       [EMediaGet url; EMkdir true (removelast filepath);
        EWriteMedia filepath url])
    else (false, [EMediaGet url; EMkdir true (removelast filepath)])
  else (false, [EMediaGet url]).

(** ** Media resolver and per-item persistence *)

(** [for media in media_data: if media.get("media_key") == media_key: ...
    break]; [JNull] when no descriptor has the key. *)
Fixpoint find_media (media_data : list json) (media_key : json)
  : outcome json :=
  match media_data with
  | [] => Returns JNull
  | media :: rest =>
      k <- py_get media "media_key" JNull ;;
      if py_eq k media_key then Returns media else find_media rest media_key
  end.

(** The loop over the variants of a video: the URL held when it ends. *)
Fixpoint select_variant (variants : list json) (max_bitrate media_url : json)
  : outcome json :=
  match variants with
  | [] => Returns media_url
  | variant :: rest =>
      bitrate <- py_get variant "bit_rate" (JNum 0) ;;
      higher <- py_gt bitrate max_bitrate ;;
      if higher then
        url <- py_get variant "url" (JStr "") ;;
        select_variant rest bitrate url
      else select_variant rest max_bitrate media_url
  end.

Record counters : Type := {
  photo_count : nat;
  video_count : nat;
  gif_count : nat;
  media_count : nat
}.

(** The end of the loop body: [if media_url: ... download ...]. *)
Definition fetch_media (w : World) (output_path : path)
    (media_type filename : string) (media_url : json) (c : counters)
  : eff counters :=
  if truthy media_url then
    extension <~ lift (get_media_extension media_type media_url) ;;
    let filepath := output_path ++ [(filename ++ extension)%string] in
    let d := download_media_file w media_url filepath in
    (Returns (if fst d
              then {| photo_count := photo_count c;
                      video_count := video_count c;
                      gif_count := gif_count c;
                      media_count := S (media_count c) |}
              else c),
     snd d)
  else ret c.

(** The body of [for media_key in media_keys]. *)
Definition resolve_media (w : World) (output_path : path) (media_data : json)
    (c : counters) (media_key : json) : eff counters :=
  descriptors <~ lift (py_iter media_data) ;;
  media_info <~ lift (find_media descriptors media_key) ;;
  if negb (truthy media_info) then ret c
  else
    media_type <~ lift (py_get media_info "type" (JStr "")) ;;
    if py_eq media_type (JStr "photo") then
      let c := {| photo_count := S (photo_count c);
                  video_count := video_count c;
                  gif_count := gif_count c;
                  media_count := media_count c |} in
      let filename := numbered "photo_" (photo_count c) in
      media_url <~ lift (py_get media_info "url" (JStr "")) ;;
      fetch_media w output_path "photo" filename media_url c
    else if py_eq media_type (JStr "video") then
      let c := {| photo_count := photo_count c;
                  video_count := S (video_count c);
                  gif_count := gif_count c;
                  media_count := media_count c |} in
      let filename := numbered "video_" (video_count c) in
      variants <~ lift (py_get media_info "variants" (JArr [])) ;;
      vs <~ lift (py_iter variants) ;;
      media_url <~ lift (select_variant vs (JNum 0) (JStr "")) ;;
      fetch_media w output_path "video" filename media_url c
    else if py_eq media_type (JStr "animated_gif") then
      let c := {| photo_count := photo_count c;
                  video_count := video_count c;
                  gif_count := S (gif_count c);
                  media_count := media_count c |} in
      let filename := numbered "gif_" (gif_count c) in
      variants <~ lift (py_get media_info "variants" (JArr [])) ;;
      media_url <~ lift (if truthy variants
                         then first <- py_first variants ;;
                              py_get first "url" (JStr "")
                         else Returns (JStr "")) ;;
      fetch_media w output_path "animated_gif" filename media_url c
    else ret c.

Definition save_individual_tweet (w : World) (tweet_data includes_data : json)
    (output_dir : string) : eff nat :=
  tweet_id <~ lift (py_get tweet_data "id" JNull) ;;
  if negb (truthy tweet_id) then ret 0
  else
    id <~ lift (match tweet_id with
                | JStr s => Returns s
                | _ => Raises TypeError
                end) ;;
    let output_path := [output_dir; "individual_tweets"; id] in
    _ <~ mkdir w true output_path ;;
    let tweet_file := output_path ++ ["tweet.json"] in
    _ <~ write_file w tweet_file (EWriteJson tweet_file tweet_data) ;;
    media_data <~ lift (py_get includes_data "media" (JArr [])) ;;
    attached <~ lift (if truthy media_data
                      then py_contains "attachments" tweet_data
                      else Returns false) ;;
    if attached then
      attachments <~ lift (py_getitem tweet_data "attachments") ;;
      media_keys <~ lift (py_get attachments "media_keys" (JArr [])) ;;
      keys <~ lift (py_iter media_keys) ;;
      c <~ for_each (resolve_media w output_path media_data) keys
             {| photo_count := 0; video_count := 0;
                gif_count := 0; media_count := 0 |} ;;
      ret (media_count c)
    else ret 0.

(** ** Persistence of the batch responses *)

(** The two nested loops that save every item of every response; the
    state is [(total_tweets, total_media)]. *)
Definition save_response_items (w : World) (output_dir : string)
    (announce : bool) (totals : nat * nat) (response_data : json)
  : eff (nat * nat) :=
  tweets <~ lift (py_get response_data "data" (JArr [])) ;;
  includes <~ lift (py_get response_data "includes" (JObj [])) ;;
  items <~ lift (py_iter tweets) ;;
  for_each
    (fun (totals : nat * nat) (tweet : json) =>
       _ <~ lift (if announce then py_get tweet "id" JNull else Returns JNull) ;;
       media_count <~ save_individual_tweet w tweet includes output_dir ;;
       ret (S (fst totals), snd totals + media_count))
    items totals.

(** [save_tweets_data].  The statements after the string literal that
    follows the [if] block run as well: the directory is made and the
    document written a second time. *)
Definition save_tweets_data (w : World) (tweets_data : list json)
    (output_dir : string) (save_individual : bool) : eff unit :=
  let output_path := [output_dir] in
  let json_file := output_path ++ ["tweets_data.json"] in
  _ <~ mkdir w false output_path ;;
  _ <~ write_file w json_file (EWriteJson json_file (JArr tweets_data)) ;;
  _ <~ (if save_individual
        then for_each (save_response_items w output_dir false) tweets_data (0, 0)
        else ret (0, 0)) ;;
  _ <~ mkdir w false output_path ;;
  write_file w json_file (EWriteJson json_file (JArr tweets_data)).

(** The [try] block of [process_existing_tweets_data]. *)
Definition reprocess (w : World) (json_path : path) (output_dir : string)
    (save_individual : bool) : eff unit :=
  tweets_data <~ lift (read_json w json_path) ;;
  if save_individual then
    responses <~ lift (py_iter tweets_data) ;;
    _ <~ for_each (save_response_items w output_dir true) responses (0, 0) ;;
    ret tt
  else ret tt.

(** [process_existing_tweets_data] returns [None] on every path: a
    missing file and every exception end in a message.  The result is the
    list of events performed. *)
Definition process_existing_tweets_data (w : World) (json_file : string)
    (output_dir : string) (save_individual : bool) : list event :=
  let json_path := [json_file] in
  if negb (path_exists w json_path) then []
  else snd (reprocess w json_path output_dir save_individual).

(** ** Batch fetcher *)

Record fetch_state : Type := {
  all_tweets_data : list json;
  failed_chunks : list (nat * list string)
}.

Definition add_result (st : fetch_state) (tweets_data : json) : fetch_state :=
  {| all_tweets_data := all_tweets_data st ++ [tweets_data];
     failed_chunks := failed_chunks st |}.

Definition add_failed (st : fetch_state) (i : nat) (chunk : list string)
  : fetch_state :=
  {| all_tweets_data := all_tweets_data st;
     failed_chunks := failed_chunks st ++ [(i, chunk)] |}.

(** [all_tweets_data = []] and [failed_chunks = []] before the loop. *)
Definition start : fetch_state :=
  {| all_tweets_data := []; failed_chunks := [] |}.

(** The wait that ends the [try] block of batch [i] out of [total]. *)
Definition batch_wait (is_free_plan : bool) (i total : nat) : list event :=
  if i <? total then
    if is_free_plan then [ESleep 900]
    else if 15 <? total then [ESleep 60] else []
  else [].

(** [tweets_data and "data" in tweets_data] *)
Definition has_data (tweets_data : json) : outcome bool :=
  if truthy tweets_data then py_contains "data" tweets_data else Returns false.

(** [len(tweets_data.get('data', []))], evaluated for the success message. *)
Definition data_count (tweets_data : json) : outcome nat :=
  d <- py_get tweets_data "data" (JArr []) ;; py_len d.

(** One turn of the loop over the batches: the [try] block and its
    [except Exception] handler.  An append made before a raise stays. *)
Definition fetch_batch (w : World) (bearer_token output_dir : string)
    (is_free_plan : bool) (total : nat) (st : fetch_state)
    (i : nat) (chunk : list string) : fetch_state * list event :=
  let call := get_posts_from_x_api w i chunk bearer_token output_dir in
  match fst call with
  | Raises _ => (add_failed st i chunk, snd call)
  | Returns tweets_data =>
      match has_data tweets_data with
      | Raises _ => (add_failed st i chunk, snd call)
      | Returns true =>
          let st := add_result st tweets_data in
          match data_count tweets_data with
          | Raises _ => (add_failed st i chunk, snd call)
          | Returns _ => (st, snd call ++ batch_wait is_free_plan i total)
          end
      | Returns false =>
          (add_failed st i chunk, snd call ++ batch_wait is_free_plan i total)
      end
  end.

(** [for i, chunk in enumerate(chunks, 1)], from batch number [i] on. *)
Fixpoint fetch_batches (w : World) (bearer_token output_dir : string)
    (is_free_plan : bool) (total : nat) (i : nat) (chunks : list (list string))
    (st : fetch_state) : fetch_state * list event :=
  match chunks with
  | [] => (st, [])
  | chunk :: rest =>
      let step := fetch_batch w bearer_token output_dir is_free_plan total st i chunk in
      let tail := fetch_batches w bearer_token output_dir is_free_plan total
                    (S i) rest (fst step) in
      (fst tail, snd step ++ snd tail)
  end.

(** [sum(len(data.get("data", [])) for data in all_tweets_data)] *)
Fixpoint total_count (all : list json) : outcome nat :=
  match all with
  | [] => Returns 0
  | data :: rest =>
      n <- data_count data ;;
      m <- total_count rest ;;
      Returns (n + m)
  end.

Definition fetch_all_tweets (w : World) (tweet_ids : list string)
    (bearer_token output_dir : string) (is_free_plan save_individual : bool)
  : eff unit :=
  let sorted_tweet_ids := sorted tweet_ids in
  chunks <~ lift (chunk_list sorted_tweet_ids 100) ;;
  let run := fetch_batches w bearer_token output_dir is_free_plan
               (length chunks) 1 chunks start in
  _ <~ (Returns tt, snd run) ;;
  match all_tweets_data (fst run) with
  | [] => ret tt
  | _ =>
      _ <~ save_tweets_data w (all_tweets_data (fst run)) output_dir save_individual ;;
      _ <~ lift (total_count (all_tweets_data (fst run))) ;;
      ret tt
  end.

(** ** Collector and command entry point *)

Record Args : Type := {
  input_csv : string;
  column : string;
  output_dir : string;
  fetch_tweets : bool;
  bearer_token : option string;
  paid_plan : bool;
  save_individual : bool;
  no_save_individual : bool;
  process_json : option string
}.

(** Truth value of an optional string: [None] and [""] are false. *)
Definition nonempty (x : option string) : bool :=
  match x with
  | Some s => negb (s =? "")%string
  | None => false
  end.

(** [args.bearer_token or os.getenv("X_BEARER_TOKEN")], when it is true. *)
Definition credential (w : World) (args : Args) : option string :=
  let token := if nonempty (bearer_token args) then bearer_token args
               else getenv w "X_BEARER_TOKEN" in
  if nonempty token then token else None.

Section Program.
Variables is_word is_digit : ascii -> bool.

(** The body of [for row in reader]. *)
Definition collect_row (target_column : string) (tweet_ids : list string)
    (row : list (string * cell)) : list string :=
  let url := match assoc target_column row with
             | Some c => c
             | None => Some ""
             end in
  match url with
  | Some u =>
      if negb (u =? "")%string then
        match extract_tweet_id_from_url is_word is_digit u with
        | Some tweet_id =>
            if negb (tweet_id =? "")%string then set_add tweet_id tweet_ids
            else tweet_ids
        | None => tweet_ids
        end
      else tweet_ids
  | None => tweet_ids
  end.

(** The loop over the rows of the reader, from the empty set. *)
Definition collect_rows (rows : list (list string)) (target_column : string)
  : list string :=
  fold_left (collect_row target_column) (DictReader rows) [].

Definition extract_tweet_ids_from_csv (w : World) (csv_file : string)
    (target_column : string) : outcome (list string) :=
  rows <- read_csv w csv_file ;;
  Returns (collect_rows rows target_column).

(** The [try] block of [main]. *)
Definition main_body (w : World) (args : Args) : eff Z :=
  tweet_ids <~ lift (extract_tweet_ids_from_csv w (input_csv args) (column args)) ;;
  match tweet_ids with
  | [] => ret 0%Z
  | _ =>
      _ <~ save_tweet_ids w tweet_ids (output_dir args) ;;
      if fetch_tweets args then
        match credential w args with
        | Some token =>
            let is_free_plan := negb (paid_plan args) in
            let individual :=
              save_individual args && negb (no_save_individual args) in
            _ <~ fetch_all_tweets w tweet_ids token (output_dir args)
                   is_free_plan individual ;;
            ret 0%Z
        | None => ret 1%Z
        end
      else ret 0%Z
  end.

(** [main] past the reprocess branch: the check of the input file and
    the [try] block with its [except Exception] handler. *)
Definition extract_mode (w : World) (args : Args) : Z * list event :=
  if negb (path_exists w [input_csv args]) then (1%Z, [])
  else
    match main_body w args with
    | (Returns status, t) => (status, t)
    | (Raises _, t) => (1%Z, t)
    end.

(** [main]: the exit status and the events performed. *)
Definition main (w : World) (args : Args) : Z * list event :=
  match process_json args with
  | Some json_file =>
      if negb (json_file =? "")%string then
        let individual :=
          save_individual args && negb (no_save_individual args) in
        (0%Z, process_existing_tweets_data w json_file (output_dir args) individual)
      else extract_mode w args
  | None => extract_mode w args
  end.
End Program.

(** ** Vocabulary of the statements *)

(** Every character of a string is in a class. *)
Fixpoint str_all (p : ascii -> bool) (s : string) : bool :=
  match s with
  | EmptyString => true
  | String c s' => p c && str_all p s'
  end.

(** [sub] occurs in [s]. *)
Definition occurs (sub s : string) : Prop :=
  exists pre post, s = (pre ++ sub ++ post)%string.

(** [url] holds a status URL of one of the two hosts, in either path
    shape, and [id] is the digit sequence that follows [status/]. *)
Definition status_url (is_word is_digit : ascii -> bool) (url id : string)
  : Prop :=
  exists pre scheme host user rest,
    url = (pre ++ scheme ++ "://" ++ host ++ "/" ++ user ++ "/status/"
               ++ id ++ rest)%string
    /\ (scheme = "http" \/ scheme = "https")
    /\ (host = "twitter.com" \/ host = "x.com")
    /\ ((user <> "" /\ str_all is_word user = true) \/ user = "i")
    /\ id <> ""
    /\ id = run is_digit (id ++ rest).

(** The cell a row holds for a column, as the reader presents it. *)
Definition row_cell (fieldnames row : list string) (column : string)
  : option cell :=
  assoc column (zip_row fieldnames row []).

(** A row the collector has nothing to take from: it has no cell at all,
    the column is missing from it, its cell is empty, or its cell holds
    no status URL. *)
Definition skippable (is_word is_digit : ascii -> bool)
    (fieldnames row : list string) (column : string) : Prop :=
  row = []
  \/ row_cell fieldnames row column = None
  \/ row_cell fieldnames row column = Some None
  \/ row_cell fieldnames row column = Some (Some "")
  \/ exists u, row_cell fieldnames row column = Some (Some u)
               /\ extract_tweet_id_from_url is_word is_digit u = None.

(** The bit rate and the URL of a variant, with the defaults of the
    lookups, and the shape of a variant the API documents: an object
    whose bit rate, when present, is an integer. *)
Definition bit_rate_of (variant : json) : Z :=
  match variant with
  | JObj fields =>
      match assoc "bit_rate" fields with Some (JNum n) => n | _ => 0%Z end
  | _ => 0%Z
  end.

Definition url_of (variant : json) : json :=
  match variant with
  | JObj fields =>
      match assoc "url" fields with Some u => u | None => JStr "" end
  | _ => JStr ""
  end.

Definition variant_ok (variant : json) : Prop :=
  exists fields,
    variant = JObj fields
    /\ (assoc "bit_rate" fields = None
        \/ exists n, assoc "bit_rate" fields = Some (JNum n)).

(** The identifier lists of the API requests of a trace, in order. *)
Fixpoint api_requests (t : list event) : list (list string) :=
  match t with
  | [] => []
  | EApiGet ids :: t' => ids :: api_requests t'
  | _ :: t' => api_requests t'
  end.

(** The pauses of a trace, in order. *)
Fixpoint pauses (t : list event) : list Z :=
  match t with
  | [] => []
  | ESleep n :: t' => n :: pauses t'
  | _ :: t' => pauses t'
  end.

(** The [try] block of a batch runs to its end: the request returns a
    document and neither the test of its [data] key nor the success
    message raises. *)
Definition completes (w : World) (bearer_token output_dir : string)
    (i : nat) (chunk : list string) : Prop :=
  exists doc present,
    fst (get_posts_from_x_api w i chunk bearer_token output_dir) = Returns doc
    /\ has_data doc = Returns present
    /\ (present = true -> exists n, data_count doc = Returns n).

(** The pause the delay policy puts between two consecutive batches of a
    run of [total] batches. *)
Definition policy_pause (is_free_plan : bool) (total : nat) : list event :=
  if is_free_plan then [ESleep 900]
  else if 15 <? total then [ESleep 60] else [].

(** One request per batch, in order, with [pause] between two consecutive
    batches. *)
Fixpoint paced (pause : list event) (chunks : list (list string))
  : list event :=
  match chunks with
  | [] => []
  | chunk :: rest =>
      EApiGet chunk ::
      match rest with
      | [] => []
      | _ => pause ++ paced pause rest
      end
  end.

(** The delay policy as the specification words it: in constrained mode
    900 before every batch except the last, in elevated mode 60 before
    each subsequent batch when there are more than 15 batches. *)
Definition pause_before_as_specified (is_free_plan : bool) (total i : nat)
  : list event :=
  if is_free_plan then
    if i <? total then [ESleep 900] else []
  else
    if (1 <? i) && (15 <? total) then [ESleep 60] else [].

Fixpoint trace_as_specified (is_free_plan : bool) (total i : nat)
    (chunks : list (list string)) : list event :=
  match chunks with
  | [] => []
  | chunk :: rest =>
      pause_before_as_specified is_free_plan total i
      ++ EApiGet chunk :: trace_as_specified is_free_plan total (S i) rest
  end.

(** The unrecoverable setup errors the specification names: a missing
    input file (of either mode) or a missing credential. *)
Definition reprocess_mode (args : Args) : bool := nonempty (process_json args).

Definition input_file_missing (w : World) (args : Args) : bool :=
  match process_json args with
  | Some json_file =>
      if negb (json_file =? "")%string then negb (path_exists w [json_file])
      else negb (path_exists w [input_csv args])
  | None => negb (path_exists w [input_csv args])
  end.

Definition credential_missing (w : World) (args : Args) : bool :=
  negb (reprocess_mode args) && fetch_tweets args
  && match credential w args with Some _ => false | None => true end.

Definition setup_error (w : World) (args : Args) : bool :=
  input_file_missing w args || credential_missing w args.

(** An event addressed through the path [dir] of an item, as a list of
    operands: the making of [dir], the write of [dir / "tweet.json"], a
    media request, or the write of [dir / name]. *)
Definition confined (dir : path) (ev : event) : Prop :=
  match ev with
  | EMkdir _ p => p = dir
  | EWriteJson p _ => p = dir ++ ["tweet.json"]
  | EWriteMedia p _ => exists name, p = dir ++ [name]
  | EMediaGet _ => True
  | EApiGet _ | ESleep _ | EWriteCsv _ _ => False
  end.

(** *** Where a path lies

    On a POSIX system [pathlib] keeps of a string its root ([/], or [//]
    for exactly two leading slashes) and its components: the pieces
    between slashes, the empty ones and [.] dropped, [..] kept. *)
Fixpoint split_slash (s : string) : list string :=
  match s with
  | EmptyString => [""]
  | String c s' =>
      if (c =? "/")%char then "" :: split_slash s'
      else match split_slash s' with
           | piece :: pieces => String c piece :: pieces
           | [] => [String c ""]
           end
  end.

Definition parts (s : string) : list string :=
  filter (fun piece => negb (piece =? "")%string && negb (piece =? ".")%string)
    (split_slash s).

Definition root (s : string) : string :=
  if prefix "///" s then "/"
  else if prefix "//" s then "//"
  else if prefix "/" s then "/"
  else "".

(** [base / operand]: an operand that starts with a slash replaces what
    was joined before it, any other adds its components. *)
Definition joinpath (base : string * list string) (operand : string)
  : string * list string :=
  if prefix "/" operand then (root operand, parts operand)
  else (fst base, snd base ++ parts operand).

(** The root and the components of the path a list of operands makes. *)
Definition lexical (p : path) : string * list string :=
  fold_left joinpath p ("", []).

(** The path [names] below [base]. *)
Definition below (base : string * list string) (names : list string)
  : string * list string :=
  (fst base, snd base ++ names).

(** A plain file name: not empty, without a slash, and neither [.] nor
    [..]. *)
Definition plain (s : string) : bool :=
  negb (s =? "")%string && negb (s =? ".")%string && negb (s =? "..")%string
  && str_all (fun c => negb (c =? "/")%char) s.

(** An event that stays inside the directory [individual_tweets/<id>] of
    the output directory: the making of that directory, the write of its
    [tweet.json], a media request, or the write of a file with a plain
    name directly in it. *)
Definition inside (output_dir id : string) (ev : event) : Prop :=
  let dir := below (lexical [output_dir]) ["individual_tweets"; id] in
  match ev with
  | EMkdir _ p => lexical p = dir
  | EWriteJson p _ => lexical p = below dir ["tweet.json"]
  | EWriteMedia p _ =>
      exists name, plain name = true /\ lexical p = below dir [name]
  | EMediaGet _ => True
  | EApiGet _ | ESleep _ | EWriteCsv _ _ => False
  end.

(** The number of media requests of a trace. *)
Fixpoint media_gets (t : list event) : nat :=
  match t with
  | [] => 0
  | EMediaGet _ :: t' => S (media_gets t')
  | _ :: t' => media_gets t'
  end.

(** The counters after one more saved file. *)
Definition counted (c : counters) : counters :=
  {| photo_count := photo_count c;
     video_count := video_count c;
     gif_count := gif_count c;
     media_count := S (media_count c) |}.

(** An event of persistence: anything but an API request or a pause. *)
Definition persists (ev : event) : Prop :=
  match ev with
  | EApiGet _ | ESleep _ => False
  | _ => True
  end.

(** An event of the fetch loop: an API request or a pause. *)
Definition fetches (ev : event) : Prop :=
  match ev with
  | EApiGet _ | ESleep _ => True
  | _ => False
  end.

(** ** Worlds and arguments for the examples *)

(** Every file exists, every write and download succeeds, the CSV file
    holds [rows] and request [n] is answered by [reply n]. *)
Definition fair_world (rows : list (list string)) (reply : nat -> api_reply)
  : World :=
  {| getenv := fun _ => None;
     path_exists := fun _ => true;
     read_csv := fun _ => Returns rows;
     read_json := fun _ => Returns (JArr []);
     fs_mkdir := fun _ _ => true;
     fs_write := fun _ => true;
     x_api := fun n _ _ => reply n;
     media_get := fun _ => true |}.

(** A payload with one item, and a payload without the [data] key, as the
    API sends it when none of the identifiers is found. *)
Definition one_item (id : string) : json :=
  JObj [("data", JArr [JObj [("id", JStr id)]])].

Definition not_found : json :=
  JObj [("errors", JArr [JObj [("title", JStr "Not Found Error")]])].

(** The second request meets status 503, the others succeed. *)
Definition second_fails (n : nat) : api_reply :=
  if n =? 2 then ErrorStatus 503 else Body (one_item "1").

(** The first request finds nothing, the others succeed. *)
Definition first_finds_nothing (n : nat) : api_reply :=
  if n =? 1 then Body not_found else Body (one_item "2").

(** The first response is the JSON number 5, the others are empty lists
    of items. *)
Definition first_is_a_number (n : nat) : api_reply :=
  if n =? 1 then Body (JNum 5) else Body (JObj [("data", JArr [])]).

(** An item with two photos, and the side table that describes them. *)
Definition photo_item : json :=
  JObj [("id", JStr "20"); ("text", JStr "hello");
        ("attachments", JObj [("media_keys", JArr [JStr "3_1"; JStr "3_2"])])].

Definition photo_includes : json :=
  JObj [("media",
         JArr [JObj [("media_key", JStr "3_1"); ("type", JStr "photo");
                     ("url", JStr "https://pbs.twimg.com/media/a.jpg")];
               JObj [("media_key", JStr "3_2"); ("type", JStr "photo");
                     ("url", JStr "https://pbs.twimg.com/media/b.png")]])].

(** Every file exists and holds the document [doc] when read as JSON;
    every write and download succeeds. *)
Definition archive_world (doc : json) : World :=
  {| getenv := fun _ => None;
     path_exists := fun _ => true;
     read_csv := fun _ => Returns [];
     read_json := fun _ => Returns doc;
     fs_mkdir := fun _ _ => true;
     fs_write := fun _ => true;
     x_api := fun _ _ _ => ConnectionFailed;
     media_get := fun _ => true |}.

(** A response with one item that has two photos attached. *)
Definition photo_response : json :=
  JObj [("data", JArr [photo_item]); ("includes", photo_includes)].

(** The input file exists but is not valid UTF-8: reading it raises. *)
Definition undecodable_csv_world : World :=
  {| getenv := fun _ => None;
     path_exists := fun _ => true;
     read_csv := fun _ => Raises UnicodeDecodeError;
     read_json := fun _ => Returns (JArr []);
     fs_mkdir := fun _ _ => true;
     fs_write := fun _ => true;
     x_api := fun _ _ _ => ConnectionFailed;
     media_get := fun _ => true |}.

(** No file exists. *)
Definition no_file_world : World :=
  {| getenv := fun _ => None;
     path_exists := fun _ => false;
     read_csv := fun _ => Raises OSError;
     read_json := fun _ => Raises OSError;
     fs_mkdir := fun _ _ => true;
     fs_write := fun _ => true;
     x_api := fun _ _ _ => ConnectionFailed;
     media_get := fun _ => true |}.

Definition extract_args (csv : string) (fetch : bool) (token : option string)
  : Args :=
  {| input_csv := csv;
     column := "url";
     output_dir := "data";
     fetch_tweets := fetch;
     bearer_token := token;
     paid_plan := false;
     save_individual := true;
     no_save_individual := false;
     process_json := None |}.

Definition reprocess_args (json_file : string) : Args :=
  {| input_csv := "in.csv";
     column := "url";
     output_dir := "data";
     fetch_tweets := false;
     bearer_token := None;
     paid_plan := false;
     save_individual := true;
     no_save_individual := false;
     process_json := Some json_file |}.

(* ================================================================== *)
(** * Part II: properties *)
(* ================================================================== *)

(** ** Chunker *)

Section Chunker.
Context {A : Type}.
Variable lst : list A.
Variable c : nat.
Hypothesis c_pos : 0 < c.

Let chunk_at (i : nat) : list A := slice lst i (i + c).

Lemma chunk_at_length i : length (chunk_at i) = Nat.min c (length lst - i).
Proof.
  unfold chunk_at, slice.
  rewrite length_firstn, length_skipn. f_equal. lia.
Qed.

Lemma range_from_concat fuel i :
  length lst <= i + fuel ->
  concat (map chunk_at (range_from fuel i (length lst) c)) = skipn i lst.
Proof.
  revert i. induction fuel as [|fuel IH]; intros i Hfuel; simpl.
  - symmetry. apply skipn_all2. lia.
  - destruct (Nat.ltb_spec i (length lst)) as [Hlt|Hge].
    + simpl. rewrite IH by lia.
      unfold chunk_at, slice.
      replace (i + c - i) with c by lia.
      rewrite Nat.add_comm, <- skipn_skipn.
      apply firstn_skipn.
    + simpl. symmetry. apply skipn_all2. lia.
Qed.

Lemma range_from_below fuel i :
  Forall (fun j => j < length lst) (range_from fuel i (length lst) c).
Proof.
  revert i. induction fuel as [|fuel IH]; intros i; simpl.
  - constructor.
  - destruct (Nat.ltb_spec i (length lst)); constructor; auto.
Qed.

Lemma chunks_bounded idxs :
  Forall (fun ch : list A => length ch <= c) (map chunk_at idxs).
Proof.
  apply Forall_map, Forall_forall. intros i _.
  rewrite chunk_at_length. lia.
Qed.

Lemma chunks_nonempty idxs :
  Forall (fun j => j < length lst) idxs ->
  Forall (fun ch : list A => ch <> []) (map chunk_at idxs).
Proof.
  intros H. apply Forall_map. revert H. apply Forall_impl.
  intros i Hi Heq. apply (f_equal (@length A)) in Heq.
  rewrite chunk_at_length in Heq. simpl in Heq. lia.
Qed.

Lemma chunk_list_unfold :
  chunk_list lst (Z.of_nat c) =
  Returns (map chunk_at (range_from (length lst) 0 (length lst) c)).
Proof.
  unfold chunk_list, py_range.
  destruct (Z.eqb_spec (Z.of_nat c) 0) as [E|_]; [lia|].
  destruct (Z.ltb_spec (Z.of_nat c) 0) as [E|_]; [lia|].
  simpl. rewrite Nat2Z.id. reflexivity.
Qed.
End Chunker.

Lemma chunk_lengths {A} (lst : list A) c idxs :
  map (@length A) (map (fun j => slice lst j (j + c)) idxs) =
  map (fun j => Nat.min c (length lst - j)) idxs.
Proof.
  rewrite map_map. apply map_ext. intros j.
  unfold slice. rewrite length_firstn, length_skipn. lia.
Qed.

(** C4. For every list and every chunk size > 0, [chunk_list] returns
    (it does not raise) a sequence of chunks that is a function of its
    arguments, in which every chunk has at most [chunk_size] elements, no
    chunk is empty, and whose concatenation in order is the input list;
    a 250-element list cut with size 100 gives chunks of lengths
    100, 100, 50. *)
Theorem chunk_list_contract {A} (lst : list A) (chunk_size : Z)
    (Hpos : (0 < chunk_size)%Z) :
  exists chunks,
    chunk_list lst chunk_size = Returns chunks
    /\ (forall r, chunk_list lst chunk_size = r -> r = Returns chunks)
    /\ Forall (fun ch => (Z.of_nat (length ch) <= chunk_size)%Z) chunks
    /\ Forall (fun ch => ch <> []) chunks
    /\ (lst = [] -> chunks = [])
    /\ concat chunks = lst
    /\ (length lst = 250 -> chunk_size = 100%Z ->
        map (@length A) chunks = [100; 100; 50]).
Proof.
  assert (Hc : 0 < Z.to_nat chunk_size) by lia.
  pose proof (chunk_list_unfold lst _ Hc) as E.
  rewrite Z2Nat.id in E by lia.
  eexists. split; [exact E|].
  split; [intros r <-; exact E|].
  split.
  - eapply Forall_impl; [|apply chunks_bounded; exact Hc].
    simpl. intros ch H. lia.
  - split; [apply chunks_nonempty; [exact Hc|apply range_from_below]|].
    split; [intros ->; reflexivity|].
    split; [rewrite range_from_concat by lia; reflexivity|].
    intros Hlen ->. rewrite chunk_lengths, Hlen. reflexivity.
Qed.

Lemma chunk_list_contract_witness :
  exists chunks,
    chunk_list ["a"; "b"; "c"; "d"; "e"] 2 = Returns chunks
    /\ chunks = [["a"; "b"]; ["c"; "d"]; ["e"]].
Proof.
  destruct (chunk_list_contract ["a"; "b"; "c"; "d"; "e"] 2 eq_refl)
    as (chunks & E & _).
  exists chunks. split; [exact E|].
  vm_compute in E. injection E as <-. reflexivity.
Defined.

(** ** Strings *)

Lemma prefix_spec sub s :
  prefix sub s = true <-> exists post, s = (sub ++ post)%string.
Proof.
  revert s. induction sub as [|c sub IH]; intros s.
  - destruct s; simpl; split; intros; eauto.
  - destruct s as [|d s]; simpl.
    + split; [discriminate|intros [post H]; discriminate].
    + destruct (ascii_dec c d) as [->|N].
      * rewrite IH. split; intros [post H]; exists post.
        -- now rewrite H.
        -- now injection H.
      * split; [discriminate|].
        intros [post H]. injection H as H1 H2. congruence.
Qed.

Lemma str_in_spec sub s : str_in sub s = true <-> occurs sub s.
Proof.
  unfold occurs. induction s as [|c s IH]; cbn [str_in].
  - rewrite orb_false_r, prefix_spec. split.
    + intros [post H]. exists EmptyString, post. exact H.
    + intros (pre & post & H). exists post.
      destruct pre; [exact H|discriminate].
  - rewrite orb_true_iff, prefix_spec, IH. split.
    + intros [[post H]|(pre & post & H)].
      * exists EmptyString, post. exact H.
      * exists (String c pre), post. simpl. now rewrite H.
    + intros (pre & post & H). destruct pre as [|c' pre]; simpl in H.
      * left. now exists post.
      * right. injection H as _ H. now exists pre, post.
Qed.

Lemma str_in_false sub s : str_in sub s = false <-> ~ occurs sub s.
Proof.
  rewrite <- str_in_spec. destruct (str_in sub s); intuition congruence.
Qed.

Lemma endswith_spec s suf :
  endswith s suf = true <-> exists pre, s = (pre ++ suf)%string.
Proof.
  induction s as [|c s IH]; cbn [endswith].
  - rewrite orb_false_r, String.eqb_eq. split.
    + intros <-. now exists EmptyString.
    + intros [pre H]. destruct pre; [exact H|discriminate].
  - rewrite orb_true_iff, String.eqb_eq, IH. split.
    + intros [<-|[pre ->]]; [now exists EmptyString|now exists (String c pre)].
    + intros [pre H]. destruct pre as [|c' pre]; simpl in H.
      * now left.
      * right. injection H as _ H. now exists pre.
Qed.

Lemma endswith_occurs s suf : endswith s suf = true -> occurs suf s.
Proof.
  rewrite endswith_spec. intros [pre ->]. exists pre, EmptyString.
  f_equal. clear. induction suf; simpl; congruence.
Qed.

(** ** Media extension *)

Ltac settle_extension :=
  eexists; split; [reflexivity|];
  repeat split; intros; try reflexivity; tauto.

(** C8 (as the code has it). For every photo URL the extension is chosen
    by occurrence anywhere in the URL, not by its suffix: [.jpg] when
    [.jpg] or [.jpeg] occurs, else [.png] when [.png] occurs, else
    [.webp] when [.webp] occurs, else the default [.jpg]; a URL whose
    suffix is [.jpg] or [.jpeg] therefore gets [.jpg]. *)
Theorem photo_extension_by_occurrence (url : string) :
  exists ext,
    get_media_extension "photo" (JStr url) = Returns ext
    /\ (occurs ".jpg" url \/ occurs ".jpeg" url -> ext = ".jpg")
    /\ (~ occurs ".jpg" url -> ~ occurs ".jpeg" url ->
        occurs ".png" url -> ext = ".png")
    /\ (~ occurs ".jpg" url -> ~ occurs ".jpeg" url -> ~ occurs ".png" url ->
        occurs ".webp" url -> ext = ".webp")
    /\ (~ occurs ".jpg" url -> ~ occurs ".jpeg" url -> ~ occurs ".png" url ->
        ~ occurs ".webp" url -> ext = ".jpg")
    /\ (endswith url ".jpg" = true \/ endswith url ".jpeg" = true ->
        ext = ".jpg").
Proof.
  unfold get_media_extension. simpl.
  destruct (str_in ".jpg" url) eqn:Ejpg; simpl.
  { apply str_in_spec in Ejpg. settle_extension. }
  apply str_in_false in Ejpg.
  destruct (str_in ".jpeg" url) eqn:Ejpeg; simpl.
  { apply str_in_spec in Ejpeg. settle_extension. }
  apply str_in_false in Ejpeg.
  assert (Hsuf : ~ (endswith url ".jpg" = true \/ endswith url ".jpeg" = true)).
  { intros [H|H]; apply endswith_occurs in H; tauto. }
  destruct (str_in ".png" url) eqn:Epng; simpl.
  { apply str_in_spec in Epng. settle_extension. }
  apply str_in_false in Epng.
  destruct (str_in ".webp" url) eqn:Ewebp; simpl.
  { apply str_in_spec in Ewebp. settle_extension. }
  apply str_in_false in Ewebp. settle_extension.
Qed.

Lemma photo_extension_by_occurrence_witness :
  get_media_extension "photo" (JStr "https://pbs.twimg.com/media/Fabc.png")
  = Returns ".png".
Proof.
  destruct (photo_extension_by_occurrence "https://pbs.twimg.com/media/Fabc.png")
    as (ext & E & _ & Hpng & _).
  rewrite E. f_equal. apply Hpng.
  - apply str_in_false. vm_compute. reflexivity.
  - apply str_in_false. vm_compute. reflexivity.
  - apply str_in_spec. vm_compute. reflexivity.
Defined.

(** C8 (as the specification words it) fails: the size-suffixed form of a
    PNG media URL ends in none of the four extensions, so the suffix rule
    gives the default [.jpg], while the code returns [.png]; and a URL
    that ends in [.png] after an earlier [.jpg] is given [.jpg]. *)
Lemma photo_extension_not_by_suffix :
  get_media_extension "photo" (JStr "https://pbs.twimg.com/media/Fabc.png:large")
    = Returns ".png"
  /\ photo_extension_by_suffix "https://pbs.twimg.com/media/Fabc.png:large"
     = ".jpg"
  /\ get_media_extension "photo" (JStr "https://example.com/a.jpg.png")
     = Returns ".jpg"
  /\ photo_extension_by_suffix "https://example.com/a.jpg.png" = ".png".
Proof. vm_compute. repeat split. Qed.

(** ** Extractor: the matcher combinators *)

Lemma lit_sound l k s g :
  lit l k s = Some g -> exists s', s = (l ++ s')%string /\ k s' = Some g.
Proof.
  revert s. induction l as [|c l IH]; intros s H; simpl in H.
  - now exists s.
  - destruct s as [|d s]; [discriminate|].
    destruct (Ascii.eqb_spec c d) as [->|]; [|discriminate].
    destruct (IH _ H) as (s' & -> & Hk). now exists s'.
Qed.

Lemma lit_app l k s : lit l k (l ++ s)%string = k s.
Proof.
  induction l as [|c l IH]; simpl; [reflexivity|].
  now rewrite Ascii.eqb_refl.
Qed.

Lemma opt_sound r k s g :
  opt r k s = Some g -> r k s = Some g \/ k s = Some g.
Proof. unfold opt. destruct (r k s); auto. Qed.

Lemma opt_skip r k s : k s <> None -> opt r k s <> None.
Proof. unfold opt. destruct (r k s); congruence. Qed.

Lemma opt_take r k s : r k s <> None -> opt r k s <> None.
Proof. unfold opt. destruct (r k s); congruence. Qed.

Lemma alt_sound r1 r2 k s g :
  alt r1 r2 k s = Some g -> r1 k s = Some g \/ r2 k s = Some g.
Proof. unfold alt. destruct (r1 k s); auto. Qed.

Lemma alt_left r1 r2 k s : r1 k s <> None -> alt r1 r2 k s <> None.
Proof. unfold alt. destruct (r1 k s); congruence. Qed.

Lemma alt_right r1 r2 k s : r2 k s <> None -> alt r1 r2 k s <> None.
Proof. unfold alt. destruct (r1 k s); congruence. Qed.

Lemma star_sound p k s g :
  star p k s = Some g ->
  exists u s', s = (u ++ s')%string /\ str_all p u = true /\ k s' = Some g.
Proof.
  induction s as [|c s IH]; simpl; intros H.
  - now exists EmptyString, EmptyString.
  - destruct (p c) eqn:Hp.
    + destruct (star p k s) as [g'|] eqn:Hs.
      * injection H as ->.
        destruct (IH eq_refl) as (u & s' & -> & Hu & Hk).
        exists (String c u), s'. simpl. now rewrite Hp, Hu.
      * now exists EmptyString, (String c s).
    + now exists EmptyString, (String c s).
Qed.

Lemma star_none p k s : star p k s = None -> k s = None.
Proof.
  destruct s as [|c s]; simpl; [auto|].
  destruct (p c); [destruct (star p k s)|]; congruence.
Qed.

Lemma star_complete p k u s :
  str_all p u = true -> k s <> None -> star p k (u ++ s)%string <> None.
Proof.
  induction u as [|c u IH]; simpl; intros Hu Hk.
  - intros H. apply star_none in H. contradiction.
  - apply andb_true_iff in Hu as [Hc Hu]. rewrite Hc.
    specialize (IH Hu Hk). destruct (star p k (u ++ s)); congruence.
Qed.

Lemma plus_sound p k s g :
  plus p k s = Some g ->
  exists u s',
    s = (u ++ s')%string /\ u <> EmptyString /\ str_all p u = true
    /\ k s' = Some g.
Proof.
  unfold plus. destruct s as [|c s]; [discriminate|].
  destruct (p c) eqn:Hp; [|discriminate]. intros H.
  apply star_sound in H as (u & s' & -> & Hu & Hk).
  exists (String c u), s'. simpl. rewrite Hp, Hu.
  repeat split; auto. discriminate.
Qed.

Lemma plus_complete p k u s :
  u <> EmptyString -> str_all p u = true -> k s <> None ->
  plus p k (u ++ s)%string <> None.
Proof.
  destruct u as [|c u]; [congruence|]. simpl. intros _ Hu Hk.
  apply andb_true_iff in Hu as [Hc Hu]. rewrite Hc.
  now apply star_complete.
Qed.

Lemma run_prefix p s : exists rest, s = (run p s ++ rest)%string.
Proof.
  induction s as [|c s [rest IH]]; simpl.
  - now exists EmptyString.
  - destruct (p c).
    + exists rest. simpl. now rewrite <- IH.
    + now exists (String c s).
Qed.

Lemma group_plus_sound p s g :
  group_plus p s = Some g ->
  g <> EmptyString /\ exists rest, s = (g ++ rest)%string /\ g = run p (g ++ rest).
Proof.
  unfold group_plus. intros H.
  assert (g = run p s) as E by (destruct (run p s); congruence).
  split.
  - intros ->. rewrite <- E in H. discriminate.
  - destruct (run_prefix p s) as [rest Hr]. exists rest.
    rewrite E, <- Hr. auto.
Qed.

Lemma group_plus_complete p g rest :
  g <> EmptyString -> g = run p (g ++ rest) ->
  group_plus p (g ++ rest)%string = Some g.
Proof.
  unfold group_plus. intros Hne <-. destruct g; congruence.
Qed.

Lemma re_search_sound m s g :
  re_search m s = Some g ->
  exists pre s', s = (pre ++ s')%string /\ m s' = Some g.
Proof.
  induction s as [|c s IH]; simpl; intros H.
  - exists EmptyString, EmptyString. destruct (m EmptyString); auto; discriminate.
  - destruct (m (String c s)) as [g'|] eqn:Hm.
    + exists EmptyString, (String c s). now rewrite Hm.
    + destruct (IH H) as (pre & s' & -> & Hk). now exists (String c pre), s'.
Qed.

Lemma re_search_here m s : m s <> None -> re_search m s <> None.
Proof. destruct s; simpl; destruct (m _); congruence. Qed.

Lemma re_search_complete m pre s :
  m s <> None -> re_search m (pre ++ s)%string <> None.
Proof.
  induction pre as [|c pre IH]; simpl; intros H.
  - now apply re_search_here.
  - specialize (IH H). destruct (m (String c (pre ++ s))); congruence.
Qed.

(** ** Extractor: the two patterns *)

Section ExtractorProofs.
Variables is_word is_digit : ascii -> bool.

Lemma head_sound (K : matcher) s g :
  lit "http" (opt (lit "s") (lit "://"
    (alt (lit "twitter.com") (lit "x.com") K))) s = Some g ->
  exists scheme host s',
    s = (scheme ++ "://" ++ host ++ s')%string
    /\ (scheme = "http" \/ scheme = "https")
    /\ (host = "twitter.com" \/ host = "x.com")
    /\ K s' = Some g.
Proof.
  intros H. apply lit_sound in H as (s1 & -> & H).
  apply opt_sound in H as [H|H].
  - apply lit_sound in H as (s2 & -> & H).
    apply lit_sound in H as (s3 & -> & H).
    apply alt_sound in H as [H|H]; apply lit_sound in H as (s4 & -> & H).
    + exists "https", "twitter.com", s4. auto.
    + exists "https", "x.com", s4. auto.
  - apply lit_sound in H as (s3 & -> & H).
    apply alt_sound in H as [H|H]; apply lit_sound in H as (s4 & -> & H).
    + exists "http", "twitter.com", s4. auto.
    + exists "http", "x.com", s4. auto.
Qed.

Lemma head_complete (K : matcher) scheme host s :
  scheme = "http" \/ scheme = "https" ->
  host = "twitter.com" \/ host = "x.com" ->
  K s <> None ->
  lit "http" (opt (lit "s") (lit "://"
    (alt (lit "twitter.com") (lit "x.com") K)))
    (scheme ++ "://" ++ host ++ s)%string <> None.
Proof.
  intros Hs Hh HK.
  assert (Hhost : alt (lit "twitter.com") (lit "x.com") K (host ++ s)%string
                  <> None).
  { destruct Hh as [->| ->].
    - apply alt_left. now rewrite lit_app.
    - apply alt_right. now rewrite lit_app. }
  destruct Hs as [->| ->].
  - rewrite lit_app. apply opt_skip. now rewrite lit_app.
  - change ("https" ++ "://" ++ host ++ s)%string
      with ("http" ++ "s" ++ "://" ++ host ++ s)%string.
    rewrite lit_app. apply opt_take. now rewrite !lit_app.
Qed.

Lemma extract_sound url id :
  extract_tweet_id_from_url is_word is_digit url = Some id ->
  status_url is_word is_digit url id.
Proof.
  unfold extract_tweet_id_from_url, patterns, first_match, status_url.
  destruct (re_search (pattern_user is_word is_digit) url) as [g|] eqn:E1.
  - intros [= ->].
    apply re_search_sound in E1 as (pre & s & -> & H).
    apply head_sound in H as (scheme & host & s1 & -> & Hs & Hh & H).
    apply lit_sound in H as (s2 & -> & H).
    apply plus_sound in H as (user & s3 & -> & Hne & Hw & H).
    apply lit_sound in H as (s4 & -> & H).
    apply group_plus_sound in H as (Hid & rest & -> & Hrun).
    exists pre, scheme, host, user, rest. auto 10.
  - destruct (re_search (pattern_i is_digit) url) as [g|] eqn:E2;
      [|discriminate].
    intros [= ->].
    apply re_search_sound in E2 as (pre & s & -> & H).
    apply head_sound in H as (scheme & host & s1 & -> & Hs & Hh & H).
    apply lit_sound in H as (s4 & -> & H).
    apply group_plus_sound in H as (Hid & rest & -> & Hrun).
    exists pre, scheme, host, "i", rest. auto 10.
Qed.

Lemma extract_complete url id :
  status_url is_word is_digit url id ->
  extract_tweet_id_from_url is_word is_digit url <> None.
Proof.
  intros (pre & scheme & host & user & rest & -> & Hs & Hh & Hu & Hid & Hrun).
  unfold extract_tweet_id_from_url, patterns, first_match.
  destruct Hu as [[Hne Hw]| ->].
  - assert (H : re_search (pattern_user is_word is_digit)
                  (pre ++ scheme ++ "://" ++ host ++ "/" ++ user ++ "/status/"
                       ++ id ++ rest)%string <> None).
    { apply re_search_complete, head_complete; auto.
      rewrite lit_app. apply plus_complete; auto.
      rewrite lit_app, group_plus_complete; auto. discriminate. }
    destruct (re_search (pattern_user is_word is_digit) _); congruence.
  - assert (H : re_search (pattern_i is_digit)
                  (pre ++ scheme ++ "://" ++ host ++ "/" ++ "i" ++ "/status/"
                       ++ id ++ rest)%string <> None).
    { apply re_search_complete, head_complete; auto.
      change ("/" ++ "i" ++ "/status/" ++ id ++ rest)%string
        with ("/i/status/" ++ id ++ rest)%string.
      rewrite lit_app, group_plus_complete; auto. discriminate. }
    destruct (re_search (pattern_user is_word is_digit) _); [congruence|].
    destruct (re_search (pattern_i is_digit) _); congruence.
Qed.

(** C5. Whatever the tables of [\w] and [\d]: for every string that
    holds a status URL of one of the two hosts, in the
    [/<user>/status/<id>] or the [/i/status/<id>] shape, the extractor
    returns a digit sequence that follows [status/] in such a URL of the
    string; for every string that holds none it returns [None]. *)
Theorem extract_tweet_id_contract (url : string) :
  ((exists id, status_url is_word is_digit url id) ->
   exists id,
     extract_tweet_id_from_url is_word is_digit url = Some id
     /\ status_url is_word is_digit url id)
  /\ ((~ exists id, status_url is_word is_digit url id) ->
      extract_tweet_id_from_url is_word is_digit url = None).
Proof.
  split.
  - intros [id H]. apply extract_complete in H.
    destruct (extract_tweet_id_from_url is_word is_digit url) as [g|] eqn:E;
      [|congruence].
    exists g. split; [reflexivity|]. now apply extract_sound.
  - intros H.
    destruct (extract_tweet_id_from_url is_word is_digit url) as [g|] eqn:E;
      [|reflexivity].
    exfalso. apply H. exists g. now apply extract_sound.
Qed.
End ExtractorProofs.

Lemma extract_tweet_id_contract_witness :
  extract_tweet_id_from_url ascii_word ascii_digit
    "https://twitter.com/some_user/status/1234567890?s=20" = Some "1234567890"
  /\ extract_tweet_id_from_url ascii_word ascii_digit
       "see http://x.com/i/status/42" = Some "42"
  /\ extract_tweet_id_from_url ascii_word ascii_digit
       "https://example.com/some_user/status/1" = None.
Proof.
  split; [|split].
  - destruct (proj1 (extract_tweet_id_contract ascii_word ascii_digit
              "https://twitter.com/some_user/status/1234567890?s=20"))
      as (id & E & _).
    + exists "1234567890".
      exists "", "https", "twitter.com", "some_user", "?s=20".
      split; [reflexivity|]. split; [now right|]. split; [now left|].
      split; [left; split; [discriminate|reflexivity]|].
      split; [discriminate|reflexivity].
    + rewrite E. vm_compute in E. symmetry. exact E.
  - destruct (proj1 (extract_tweet_id_contract ascii_word ascii_digit
              "see http://x.com/i/status/42"))
      as (id & E & _).
    + exists "42". exists "see ", "http", "x.com", "i", "".
      split; [reflexivity|]. split; [now left|]. split; [now right|].
      split; [now right|]. split; [discriminate|reflexivity].
    + rewrite E. vm_compute in E. symmetry. exact E.
  - apply (proj2 (extract_tweet_id_contract ascii_word ascii_digit
              "https://example.com/some_user/status/1")).
    intros [id H]. apply extract_complete in H. vm_compute in H. congruence.
Defined.

(** ** Collector *)

Lemma assoc_dict_set {V} k k' (v : V) d :
  assoc k (dict_set k' v d) = if (k' =? k)%string then Some v else assoc k d.
Proof.
  induction d as [|[k0 v0] d IH]; simpl.
  - reflexivity.
  - destruct (String.eqb_spec k0 k') as [->|Hne]; simpl.
    + destruct (String.eqb_spec k' k); reflexivity.
    + rewrite IH.
      destruct (String.eqb_spec k0 k) as [->|]; [|reflexivity].
      destruct (String.eqb_spec k' k); congruence.
Qed.

Lemma zip_row_absent column fieldnames row d :
  ~ In column fieldnames ->
  assoc column (zip_row fieldnames row d) = assoc column d.
Proof.
  revert row d. induction fieldnames as [|f fs IH]; intros row d Hin.
  - reflexivity.
  - assert (Hf : (f =? column)%string = false).
    { apply String.eqb_neq. intros ->. apply Hin. now left. }
    assert (Hfs : ~ In column fs) by (intros H; apply Hin; now right).
    destruct row as [|c cs]; simpl; rewrite IH, assoc_dict_set, Hf; auto.
Qed.

Section CollectorProofs.
Variables is_word is_digit : ascii -> bool.

Lemma collect_row_skippable fieldnames row column ids :
  row <> [] ->
  skippable is_word is_digit fieldnames row column ->
  collect_row is_word is_digit column ids (zip_row fieldnames row []) = ids.
Proof.
  unfold skippable, row_cell, collect_row.
  intros Hne [H|[H|[H|[H|(u & H & Hu)]]]]; try contradiction; rewrite H;
    try reflexivity.
  rewrite Hu. destruct (negb (u =? "")%string); reflexivity.
Qed.

Lemma collect_rows_unfold fieldnames body column :
  collect_rows is_word is_digit (fieldnames :: body) column =
  fold_left (collect_row is_word is_digit column)
    (map (fun row => zip_row fieldnames row [])
       (filter (fun row => match row with [] => false | _ => true end) body))
    [].
Proof. reflexivity. Qed.

Lemma collect_rows_skip fieldnames before row after column :
  skippable is_word is_digit fieldnames row column ->
  collect_rows is_word is_digit (fieldnames :: before ++ row :: after) column =
  collect_rows is_word is_digit (fieldnames :: before ++ after) column.
Proof.
  intros Hskip. rewrite !collect_rows_unfold, !filter_app, !map_app, !fold_left_app.
  destruct row as [|c cs]; [reflexivity|].
  simpl. rewrite collect_row_skippable; [reflexivity|discriminate|exact Hskip].
Qed.

Lemma collect_rows_absent_column fieldnames body column :
  ~ In column fieldnames ->
  collect_rows is_word is_digit (fieldnames :: body) column = [].
Proof.
  intros Hin. rewrite collect_rows_unfold.
  induction (filter _ body) as [|row rows IH]; simpl; [reflexivity|].
  unfold collect_row at 2. rewrite zip_row_absent by exact Hin. exact IH.
Qed.

(** C3 (as the code has it). For every table and column name the
    collector raises nothing of its own: once the file is read it returns
    the set collected from the rows; a row with no cell for the column,
    with an empty cell or with a cell that holds no status URL leaves the
    set as if the row were not there; and when the column is absent from
    the header row every row is skipped and the set is empty. *)
Theorem collector_skips_rows :
  (forall w csv_file column rows,
      read_csv w csv_file = Returns rows ->
      extract_tweet_ids_from_csv is_word is_digit w csv_file column
      = Returns (collect_rows is_word is_digit rows column))
  /\ (forall fieldnames before row after column,
         skippable is_word is_digit fieldnames row column ->
         collect_rows is_word is_digit
           (fieldnames :: before ++ row :: after) column
         = collect_rows is_word is_digit (fieldnames :: before ++ after) column)
  /\ (forall fieldnames body column,
         ~ In column fieldnames ->
         collect_rows is_word is_digit (fieldnames :: body) column = []).
Proof.
  split; [|split].
  - intros w csv_file column rows H.
    unfold extract_tweet_ids_from_csv. rewrite H. reflexivity.
  - apply collect_rows_skip.
  - apply collect_rows_absent_column.
Qed.
End CollectorProofs.

Lemma collector_skips_rows_witness :
  collect_rows ascii_word ascii_digit
    [["title"; "url"];
     ["a"; "https://x.com/u/status/7"];
     ["b"; "https://example.com/"];
     ["c"]] "url" = ["7"]
  /\ collect_rows ascii_word ascii_digit
       [["title"]; ["https://x.com/u/status/7"]] "url" = [].
Proof.
  destruct (collector_skips_rows ascii_word ascii_digit) as (_ & Hskip & Habsent).
  split.
  - assert (Hrow : skippable ascii_word ascii_digit ["title"; "url"]
                       ["b"; "https://example.com/"] "url").
    { right. right. right. right. exists "https://example.com/".
      split; reflexivity. }
    pose proof (Hskip ["title"; "url"] [["a"; "https://x.com/u/status/7"]]
                  ["b"; "https://example.com/"] [["c"]] "url" Hrow) as E.
    cbn [app] in E. rewrite E. reflexivity.
  - apply Habsent. simpl. intros [H|[]]. discriminate.
Defined.

(** C3 (as the specification words it) fails: with the column absent from
    the header row the collector does not fail, it returns the empty
    set. *)
Lemma collector_absent_column_is_no_error :
  ~ In "url" ["title"]
  /\ extract_tweet_ids_from_csv ascii_word ascii_digit
       (fair_world [["title"]; ["https://x.com/u/status/7"]]
          (fun _ => ConnectionFailed))
       "in.csv" "url" = Returns [].
Proof.
  split.
  - simpl. intros [H|[]]. discriminate.
  - reflexivity.
Qed.

(** ** Per-item persistence *)

(** C10. For every item record whose [id] is missing or empty, saving the
    item returns 0 and performs no operation on the outside world: no
    directory, no item document, no media request. *)
Theorem save_individual_tweet_without_id (w : World)
    (fields : list (string * json)) (includes_data : json)
    (output_dir : string) :
  assoc "id" fields = None
  \/ (exists v, assoc "id" fields = Some v /\ truthy v = false) ->
  save_individual_tweet w (JObj fields) includes_data output_dir
  = (Returns 0, []).
Proof.
  unfold save_individual_tweet, bindE, lift, py_get. simpl.
  intros [H|(v & H & Hv)]; rewrite H; simpl; [|rewrite Hv]; reflexivity.
Qed.

Lemma save_individual_tweet_without_id_witness :
  save_individual_tweet (fair_world [] (fun _ => ConnectionFailed))
    (JObj [("text", JStr "hello"); ("id", JStr "")])
    (JObj [("media", JArr [JObj [("media_key", JStr "3_1")]])]) "data"
  = (Returns 0, []).
Proof.
  apply save_individual_tweet_without_id.
  right. exists (JStr ""). split; reflexivity.
Defined.

(** ** Media resolver: the variant of a video *)

Lemma variant_lookups v :
  variant_ok v ->
  py_get v "bit_rate" (JNum 0) = Returns (JNum (bit_rate_of v))
  /\ py_get v "url" (JStr "") = Returns (url_of v).
Proof.
  intros (fields & -> & [H|[n H]]); simpl; rewrite H; auto.
Qed.

Lemma select_variant_step v rest max url :
  variant_ok v ->
  select_variant (v :: rest) (JNum max) url =
  if (max <? bit_rate_of v)%Z
  then select_variant rest (JNum (bit_rate_of v)) (url_of v)
  else select_variant rest (JNum max) url.
Proof.
  intros Hv. destruct (variant_lookups v Hv) as [Hb Hu].
  simpl. rewrite Hb. simpl.
  destruct (max <? bit_rate_of v)%Z; [rewrite Hu|]; reflexivity.
Qed.

Lemma select_variant_no_higher vs max url :
  Forall variant_ok vs ->
  (forall x, In x vs -> (bit_rate_of x <= max)%Z) ->
  select_variant vs (JNum max) url = Returns url.
Proof.
  induction 1 as [|v vs Hv _ IH]; intros Hle; [reflexivity|].
  rewrite select_variant_step by exact Hv.
  destruct (Z.ltb_spec max (bit_rate_of v)) as [Hlt|_].
  - specialize (Hle v (or_introl eq_refl)). lia.
  - apply IH. intros x Hx. apply Hle. now right.
Qed.

Lemma select_variant_first_max before v after max url :
  Forall variant_ok (before ++ v :: after) ->
  (max < bit_rate_of v)%Z ->
  (forall x, In x before -> (bit_rate_of x < bit_rate_of v)%Z) ->
  (forall x, In x after -> (bit_rate_of x <= bit_rate_of v)%Z) ->
  select_variant (before ++ v :: after) (JNum max) url = Returns (url_of v).
Proof.
  revert max url. induction before as [|b before IH]; intros max url Hok Hmax Hb Ha.
  - cbn [app] in *. inversion Hok as [|? ? Hv Hrest]; subst.
    rewrite select_variant_step by exact Hv.
    destruct (Z.ltb_spec max (bit_rate_of v)); [|lia].
    now apply select_variant_no_higher.
  - cbn [app] in *. inversion Hok as [|? ? Hvb Hrest]; subst.
    rewrite select_variant_step by exact Hvb.
    assert (Hbv : (bit_rate_of b < bit_rate_of v)%Z) by (apply Hb; now left).
    assert (Hb' : forall x, In x before -> (bit_rate_of x < bit_rate_of v)%Z)
      by (intros x Hx; apply Hb; now right).
    destruct (max <? bit_rate_of b)%Z; apply IH; auto.
Qed.

Lemma select_variant_unusable vs max url :
  Forall variant_ok vs ->
  (forall x, In x vs -> truthy (url_of x) = false) ->
  truthy url = false ->
  exists u, select_variant vs (JNum max) url = Returns u /\ truthy u = false.
Proof.
  intros Hok. revert max url.
  induction Hok as [|v vs Hv _ IH]; intros max url Hun Hurl.
  - now exists url.
  - rewrite select_variant_step by exact Hv.
    assert (Hun' : forall x, In x vs -> truthy (url_of x) = false)
      by (intros x Hx; apply Hun; now right).
    destruct (max <? bit_rate_of v)%Z; apply IH; auto.
    apply Hun. now left.
Qed.

Lemma resolve_unusable_video w output_path descriptors fields vs media_key c :
  find_media descriptors media_key = Returns (JObj fields) ->
  assoc "type" fields = Some (JStr "video") ->
  assoc "variants" fields = Some (JArr vs) ->
  Forall variant_ok vs ->
  (forall x, In x vs -> truthy (url_of x) = false) ->
  resolve_media w output_path (JArr descriptors) c media_key
  = (Returns {| photo_count := photo_count c;
                video_count := S (video_count c);
                gif_count := gif_count c;
                media_count := media_count c |}, []).
Proof.
  intros Hfind Htype Hvars Hok Hun.
  destruct (select_variant_unusable vs 0 (JStr "") Hok Hun eq_refl)
    as (u & Hsel & Hu).
  unfold resolve_media, bindE, lift. cbn [py_iter fst snd].
  rewrite Hfind. cbn [fst snd].
  assert (Ht : truthy (JObj fields) = true)
    by (destruct fields; [discriminate|reflexivity]).
  rewrite Ht. cbn [negb py_get fst snd]. rewrite Htype, Hvars.
  cbn [py_eq String.eqb Ascii.eqb Bool.eqb py_iter fst snd].
  rewrite Hsel. cbn [fst snd].
  unfold fetch_media. rewrite Hu. reflexivity.
Qed.

(** Video variants with a bit rate above 0. For every video descriptor
    whose variants are well formed: the first variant whose bit rate is
    above 0 and is exceeded by no other (so a strictly highest one, when
    above 0) has its URL selected, and a file saved from it gets [.mp4];
    and when no variant carries a usable URL the attachment is skipped,
    with no request and no write, and the loop goes on with the remaining
    media keys. *)
Lemma video_variant_selection (vs : list json) (Hok : Forall variant_ok vs) :
  (forall before v after,
      vs = before ++ v :: after ->
      (0 < bit_rate_of v)%Z ->
      (forall x, In x before -> (bit_rate_of x < bit_rate_of v)%Z) ->
      (forall x, In x after -> (bit_rate_of x <= bit_rate_of v)%Z) ->
      select_variant vs (JNum 0) (JStr "") = Returns (url_of v)
      /\ get_media_extension "video" (url_of v) = Returns ".mp4")
  /\ ((forall x, In x vs -> truthy (url_of x) = false) ->
      forall w output_path descriptors fields media_key rest c,
        find_media descriptors media_key = Returns (JObj fields) ->
        assoc "type" fields = Some (JStr "video") ->
        assoc "variants" fields = Some (JArr vs) ->
        for_each (resolve_media w output_path (JArr descriptors))
          (media_key :: rest) c
        = for_each (resolve_media w output_path (JArr descriptors)) rest
            {| photo_count := photo_count c;
               video_count := S (video_count c);
               gif_count := gif_count c;
               media_count := media_count c |}).
Proof.
  split.
  - intros before v after -> Hpos Hb Ha. split; [|reflexivity].
    now apply select_variant_first_max.
  - intros Hun w output_path descriptors fields media_key rest c Hf Ht Hv.
    cbn [for_each]. unfold bindE at 1.
    rewrite (resolve_unusable_video w output_path descriptors fields vs
               media_key c Hf Ht Hv Hok Hun).
    cbn [fst snd app]. destruct (for_each _ rest _). reflexivity.
Qed.

Lemma video_variant_selection_witness :
  select_variant
    [JObj [("bit_rate", JNum 500); ("url", JStr "https://video.twimg.com/low.mp4")];
     JObj [("bit_rate", JNum 2000); ("url", JStr "https://video.twimg.com/high.mp4")];
     JObj [("bit_rate", JNum 1200); ("url", JStr "https://video.twimg.com/mid.mp4")]]
    (JNum 0) (JStr "")
  = Returns (JStr "https://video.twimg.com/high.mp4")
  /\ get_media_extension "video" (JStr "https://video.twimg.com/high.mp4")
     = Returns ".mp4".
Proof.
  refine (proj1 (video_variant_selection _ _)
            [JObj [("bit_rate", JNum 500);
                   ("url", JStr "https://video.twimg.com/low.mp4")]]
            (JObj [("bit_rate", JNum 2000);
                   ("url", JStr "https://video.twimg.com/high.mp4")])
            [JObj [("bit_rate", JNum 1200);
                   ("url", JStr "https://video.twimg.com/mid.mp4")]]
            eq_refl _ _ _).
  - repeat constructor; eexists; (split; [reflexivity|right; eexists; reflexivity]).
  - reflexivity.
  - intros x [<-|[]]. reflexivity.
  - intros x [<-|[]]. discriminate.
Defined.

(** C7. The claim, like the code's own comment on the video branch
    ("for a video, select the variant of the highest quality"), has the
    variant with the highest bit rate selected; the code does not do so
    for this descriptor. Its only variant is well formed, carries a usable
    URL and has the highest bit rate there is, 0, which is also what the
    code reads for a variant that states no bit rate; the loop starts from
    the maximum 0 and compares strictly, so it selects nothing, and the
    attachment is skipped without any request although the video counter
    has advanced. The sibling branch for an animated GIF takes the first
    variant whatever its bit rate: the same descriptor, typed
    [animated_gif], is requested and saved. *)
Theorem video_zero_bit_rate_not_selected :
  variant_ok (JObj [("bit_rate", JNum 0);
                    ("url", JStr "https://video.twimg.com/only.mp4")])
  /\ truthy (url_of (JObj [("bit_rate", JNum 0);
                           ("url", JStr "https://video.twimg.com/only.mp4")]))
     = true
  /\ select_variant
       [JObj [("bit_rate", JNum 0);
              ("url", JStr "https://video.twimg.com/only.mp4")]]
       (JNum 0) (JStr "") = Returns (JStr "")
  /\ select_variant
       [JObj [("url", JStr "https://video.twimg.com/only.mp4")]]
       (JNum 0) (JStr "") = Returns (JStr "")
  /\ resolve_media (fair_world [] (fun _ => ConnectionFailed))
       ["data"; "individual_tweets"; "1"]
       (JArr [JObj [("media_key", JStr "7_1"); ("type", JStr "video");
                    ("variants",
                     JArr [JObj [("bit_rate", JNum 0);
                                 ("url", JStr "https://video.twimg.com/only.mp4")]])]])
       {| photo_count := 0; video_count := 0; gif_count := 0; media_count := 0 |}
       (JStr "7_1")
     = (Returns {| photo_count := 0; video_count := 1;
                   gif_count := 0; media_count := 0 |}, [])
  /\ resolve_media (fair_world [] (fun _ => ConnectionFailed))
       ["data"; "individual_tweets"; "1"]
       (JArr [JObj [("media_key", JStr "7_1"); ("type", JStr "animated_gif");
                    ("variants",
                     JArr [JObj [("bit_rate", JNum 0);
                                 ("url", JStr "https://video.twimg.com/only.mp4")]])]])
       {| photo_count := 0; video_count := 0; gif_count := 0; media_count := 0 |}
       (JStr "7_1")
     = (Returns {| photo_count := 0; video_count := 0;
                   gif_count := 1; media_count := 1 |},
        [EMediaGet (JStr "https://video.twimg.com/only.mp4");
         EMkdir true ["data"; "individual_tweets"; "1"];
         EWriteMedia ["data"; "individual_tweets"; "1"; "gif_1.gif"]
           (JStr "https://video.twimg.com/only.mp4")]).
Proof.
  split; [|split; [|split; [|split; [|split]]]]; try reflexivity.
  eexists. split; [reflexivity|]. right. eexists. reflexivity.
Qed.

(** ** Batch fetcher: one batch *)

Section FetcherProofs.
Variable w : World.
Variables bearer_token output_dir : string.
Variable is_free_plan : bool.
Variable total : nat.

Lemma request_trace i chunk :
  snd (get_posts_from_x_api w i chunk bearer_token output_dir) = [EApiGet chunk].
Proof.
  unfold get_posts_from_x_api, bindE. cbn [fst snd].
  destruct (x_api w i bearer_token chunk) as [| |e|doc]; try reflexivity.
  destruct e; reflexivity.
Qed.

Lemma fetch_batch_failed_reply st i chunk :
  x_api w i bearer_token chunk = ConnectionFailed
  \/ (exists status, x_api w i bearer_token chunk = ErrorStatus status) ->
  fetch_batch w bearer_token output_dir is_free_plan total st i chunk
  = (add_failed st i chunk, EApiGet chunk :: batch_wait is_free_plan i total).
Proof.
  intros H. unfold fetch_batch, get_posts_from_x_api, bindE. cbn [fst snd].
  destruct H as [->|[status ->]]; reflexivity.
Qed.

Lemma fetch_batch_no_data_key st i chunk fields :
  x_api w i bearer_token chunk = Body (JObj fields) ->
  assoc "data" fields = None ->
  fetch_batch w bearer_token output_dir is_free_plan total st i chunk
  = (add_failed st i chunk, EApiGet chunk :: batch_wait is_free_plan i total).
Proof.
  intros H Hd. unfold fetch_batch, get_posts_from_x_api, bindE. cbn [fst snd].
  rewrite H. cbn [ret fst snd]. unfold has_data, py_contains. rewrite Hd.
  destruct (truthy (JObj fields)); reflexivity.
Qed.

Lemma fetch_batch_data_list st i chunk fields items :
  x_api w i bearer_token chunk = Body (JObj fields) ->
  assoc "data" fields = Some (JArr items) ->
  fetch_batch w bearer_token output_dir is_free_plan total st i chunk
  = (add_result st (JObj fields),
     EApiGet chunk :: batch_wait is_free_plan i total).
Proof.
  intros H Hd. unfold fetch_batch, get_posts_from_x_api, bindE. cbn [fst snd].
  rewrite H. cbn [ret fst snd].
  unfold has_data, data_count, py_contains, py_get, bind. rewrite Hd.
  destruct fields; [discriminate|]. reflexivity.
Qed.

Lemma fetch_batch_completes st i chunk :
  completes w bearer_token output_dir i chunk ->
  snd (fetch_batch w bearer_token output_dir is_free_plan total st i chunk)
  = EApiGet chunk :: batch_wait is_free_plan i total.
Proof.
  intros (doc & present & Hcall & Hdata & Hcount).
  unfold fetch_batch. rewrite Hcall, Hdata, request_trace.
  destruct present; [|reflexivity].
  destruct (Hcount eq_refl) as [n ->]. reflexivity.
Qed.

Lemma fetch_batch_requests st i chunk :
  api_requests
    (snd (fetch_batch w bearer_token output_dir is_free_plan total st i chunk))
  = [chunk].
Proof.
  assert (Hwait : forall t, t = [EApiGet chunk]
                            \/ t = [EApiGet chunk] ++ batch_wait is_free_plan i total ->
                            api_requests t = [chunk]).
  { intros t [->| ->]; [reflexivity|]. unfold batch_wait.
    destruct (i <? total), is_free_plan, (15 <? total); reflexivity. }
  apply Hwait. unfold fetch_batch. rewrite request_trace.
  destruct (fst (get_posts_from_x_api w i chunk bearer_token output_dir))
    as [doc|e]; [|now left].
  destruct (has_data doc) as [[|]|e]; [|now right|now left].
  destruct (data_count doc); [now right|now left].
Qed.

Lemma fetch_batch_keeps_failed st i chunk x :
  In x (failed_chunks st) ->
  In x (failed_chunks
          (fst (fetch_batch w bearer_token output_dir is_free_plan total st i chunk))).
Proof.
  intros Hx. unfold fetch_batch.
  destruct (fst (get_posts_from_x_api w i chunk bearer_token output_dir))
    as [doc|e]; cbn [fst add_failed failed_chunks].
  2: { apply in_or_app. now left. }
  destruct (has_data doc) as [[|]|e]; cbn [fst add_failed failed_chunks].
  - destruct (data_count doc); cbn [fst add_failed add_result failed_chunks];
      [exact Hx|apply in_or_app; now left].
  - apply in_or_app. now left.
  - apply in_or_app. now left.
Qed.

(** ** Batch fetcher: the loop *)

Lemma fetch_batches_app i before after st :
  fetch_batches w bearer_token output_dir is_free_plan total i (before ++ after) st
  = (fst (fetch_batches w bearer_token output_dir is_free_plan total
            (i + length before) after
            (fst (fetch_batches w bearer_token output_dir is_free_plan total
                    i before st))),
     snd (fetch_batches w bearer_token output_dir is_free_plan total i before st)
     ++ snd (fetch_batches w bearer_token output_dir is_free_plan total
               (i + length before) after
               (fst (fetch_batches w bearer_token output_dir is_free_plan total
                       i before st)))).
Proof.
  revert i st. induction before as [|chunk before IH]; intros i st.
  - cbn [app length fetch_batches fst snd]. rewrite Nat.add_0_r.
    now destruct (fetch_batches _ _ _ _ _ _ after st).
  - cbn [app length fetch_batches fst snd]. rewrite IH. cbn [fst snd].
    rewrite Nat.add_succ_r, app_assoc. reflexivity.
Qed.

Lemma fetch_batches_keep_failed i chunks st x :
  In x (failed_chunks st) ->
  In x (failed_chunks
          (fst (fetch_batches w bearer_token output_dir is_free_plan total
                  i chunks st))).
Proof.
  revert i st. induction chunks as [|chunk chunks IH]; intros i st Hx.
  - exact Hx.
  - cbn [fetch_batches fst]. apply IH. now apply fetch_batch_keeps_failed.
Qed.

Lemma api_requests_app t1 t2 :
  api_requests (t1 ++ t2) = api_requests t1 ++ api_requests t2.
Proof.
  induction t1 as [|ev t1 IH]; [reflexivity|].
  destruct ev; cbn [app api_requests]; rewrite IH; reflexivity.
Qed.

Lemma fetch_batches_requests i chunks st :
  api_requests
    (snd (fetch_batches w bearer_token output_dir is_free_plan total i chunks st))
  = chunks.
Proof.
  revert i st. induction chunks as [|chunk chunks IH]; intros i st.
  - reflexivity.
  - cbn [fetch_batches snd]. rewrite api_requests_app, fetch_batch_requests, IH.
    reflexivity.
Qed.

(** The loop around one batch: the state reached on [before], the turn
    of the batch, and the loop going on with [after]. *)
Lemma fetch_batches_around before chunk after st' t :
  fetch_batch w bearer_token output_dir is_free_plan total
    (fst (fetch_batches w bearer_token output_dir is_free_plan total 1 before start))
    (S (length before)) chunk = (st', t) ->
  fetch_batches w bearer_token output_dir is_free_plan total 1
    (before ++ chunk :: after) start
  = (fst (fetch_batches w bearer_token output_dir is_free_plan total
            (S (S (length before))) after st'),
     snd (fetch_batches w bearer_token output_dir is_free_plan total 1 before start)
     ++ t
     ++ snd (fetch_batches w bearer_token output_dir is_free_plan total
               (S (S (length before))) after st')).
Proof.
  intros Hstep. rewrite fetch_batches_app.
  cbn [fetch_batches Nat.add fst snd]. rewrite Hstep. reflexivity.
Qed.

Lemma batch_wait_policy i :
  i < total -> batch_wait is_free_plan i total = policy_pause is_free_plan total.
Proof.
  intros H. unfold batch_wait, policy_pause.
  destruct (Nat.ltb_spec i total); [reflexivity|lia].
Qed.

Lemma batch_wait_last i : total <= i -> batch_wait is_free_plan i total = [].
Proof.
  intros H. unfold batch_wait.
  destruct (Nat.ltb_spec i total); [lia|reflexivity].
Qed.

Lemma fetch_batches_paced chunks i st :
  i + length chunks = S total ->
  (forall k chunk, nth_error chunks k = Some chunk ->
                   completes w bearer_token output_dir (i + k) chunk) ->
  snd (fetch_batches w bearer_token output_dir is_free_plan total i chunks st)
  = paced (policy_pause is_free_plan total) chunks.
Proof.
  revert i st. induction chunks as [|chunk rest IH]; intros i st Hlen Hall.
  - reflexivity.
  - cbn [fetch_batches snd paced length] in *.
    rewrite fetch_batch_completes
      by (specialize (Hall 0 chunk eq_refl); now rewrite Nat.add_0_r in Hall).
    rewrite IH.
    + destruct rest as [|next rest].
      * cbn [length] in Hlen. rewrite batch_wait_last by lia.
        reflexivity.
      * cbn [length] in Hlen. rewrite batch_wait_policy by lia. reflexivity.
    + lia.
    + intros k c Hk. specialize (Hall (S k) c Hk).
      now rewrite Nat.add_succ_r in Hall.
Qed.
End FetcherProofs.

(** ** Batch fetcher: failures, soft failures and pauses *)

(** C1. In a run over the batches [before ++ chunk :: after], when the
    request of [chunk] meets a transport error or an error status, the
    loop records the batch number with the identifiers of [chunk] in the
    failure list, appends nothing to the results and goes on with
    [after]; every batch is requested, in order.  In a run of three
    batches in which only the second fails, the results are the payloads
    of the first and the third, and the failures are the second alone. *)
Theorem transport_failure_recorded (w : World) (bearer_token output_dir : string)
    (is_free_plan : bool) (before : list (list string)) (chunk : list string)
    (after : list (list string)) :
  x_api w (S (length before)) bearer_token chunk = ConnectionFailed
  \/ (exists status,
        x_api w (S (length before)) bearer_token chunk = ErrorStatus status) ->
  let chunks := before ++ chunk :: after in
  let loop := fetch_batches w bearer_token output_dir is_free_plan (length chunks) in
  let i := S (length before) in
  let reached := loop 1 before start in
  let rest := loop (S i) after (add_failed (fst reached) i chunk) in
  loop 1 chunks start
  = (fst rest,
     snd reached
     ++ (EApiGet chunk :: batch_wait is_free_plan i (length chunks))
     ++ snd rest)
  /\ In (i, chunk) (failed_chunks (fst (loop 1 chunks start)))
  /\ api_requests (snd (loop 1 chunks start)) = chunks
  /\ (forall c1 c3 d1 d3 items1 items3,
         before = [c1] -> after = [c3] ->
         x_api w 1 bearer_token c1 = Body (JObj d1) ->
         assoc "data" d1 = Some (JArr items1) ->
         x_api w 3 bearer_token c3 = Body (JObj d3) ->
         assoc "data" d3 = Some (JArr items3) ->
         all_tweets_data (fst (loop 1 chunks start)) = [JObj d1; JObj d3]
         /\ failed_chunks (fst (loop 1 chunks start)) = [(2, chunk)]).
Proof.
  intros Hfail chunks loop i reached rest. subst chunks loop i reached rest.
  pose proof (fetch_batches_around w bearer_token output_dir is_free_plan
                (length (before ++ chunk :: after)) before chunk after _ _
                (fetch_batch_failed_reply w bearer_token output_dir is_free_plan
                   _ _ _ _ Hfail)) as E.
  split; [exact E|]. split; [|split].
  - rewrite E. cbn [fst]. apply fetch_batches_keep_failed.
    cbn [add_failed failed_chunks]. apply in_or_app. right. now left.
  - apply fetch_batches_requests.
  - intros c1 c3 d1 d3 items1 items3 -> -> H1 Hd1 H3 Hd3.
    cbn [app length fetch_batches fst snd] in *.
    rewrite (fetch_batch_data_list w bearer_token output_dir is_free_plan
               3 start 1 c1 d1 items1 H1 Hd1).
    cbn [fst snd].
    rewrite (fetch_batch_failed_reply w bearer_token output_dir is_free_plan
               3 _ 2 chunk Hfail).
    cbn [fst snd].
    rewrite (fetch_batch_data_list w bearer_token output_dir is_free_plan
               3 _ 3 c3 d3 items3 H3 Hd3).
    split; reflexivity.
Qed.

Lemma transport_failure_recorded_witness :
  all_tweets_data
    (fst (fetch_batches (fair_world [] second_fails) "token" "data" true 3 1
            [["1"]; ["2"]; ["3"]] start))
  = [one_item "1"; one_item "1"]
  /\ failed_chunks
       (fst (fetch_batches (fair_world [] second_fails) "token" "data" true 3 1
               [["1"]; ["2"]; ["3"]] start))
     = [(2, ["2"])].
Proof.
  assert (Hfail : x_api (fair_world [] second_fails) (S (length [["1"]]))
                    "token" ["2"] = ConnectionFailed
                  \/ (exists status,
                        x_api (fair_world [] second_fails) (S (length [["1"]]))
                          "token" ["2"] = ErrorStatus status)).
  { right. exists 503%Z. reflexivity. }
  destruct (transport_failure_recorded (fair_world [] second_fails) "token"
              "data" true [["1"]] ["2"] [["3"]] Hfail) as (_ & _ & _ & H).
  exact (H ["1"] ["3"] _ _ _ _ eq_refl eq_refl eq_refl eq_refl eq_refl eq_refl).
Defined.

(** C2 (as the code has it). In a run over the batches
    [before ++ chunk :: after], when the request of [chunk] succeeds with
    an object that has no [data] key (the empty object included), the
    loop records the batch in the failure list, appends nothing to the
    results and goes on with [after]; when the object has a [data] key
    that holds a list, an empty list included, the loop appends the
    response to the results, records no failure and goes on. *)
Theorem missing_data_key_recorded (w : World) (bearer_token output_dir : string)
    (is_free_plan : bool) (before : list (list string)) (chunk : list string)
    (after : list (list string)) (fields : list (string * json)) :
  x_api w (S (length before)) bearer_token chunk = Body (JObj fields) ->
  let chunks := before ++ chunk :: after in
  let loop := fetch_batches w bearer_token output_dir is_free_plan (length chunks) in
  let i := S (length before) in
  let reached := loop 1 before start in
  (assoc "data" fields = None ->
   let rest := loop (S i) after (add_failed (fst reached) i chunk) in
   loop 1 chunks start
   = (fst rest,
      snd reached
      ++ (EApiGet chunk :: batch_wait is_free_plan i (length chunks))
      ++ snd rest)
   /\ In (i, chunk) (failed_chunks (fst (loop 1 chunks start))))
  /\ (forall items,
         assoc "data" fields = Some (JArr items) ->
         let rest := loop (S i) after (add_result (fst reached) (JObj fields)) in
         loop 1 chunks start
         = (fst rest,
            snd reached
            ++ (EApiGet chunk :: batch_wait is_free_plan i (length chunks))
            ++ snd rest)).
Proof.
  intros Hbody chunks loop i reached. subst chunks loop i reached. split.
  - intros Hnone rest. subst rest.
    pose proof (fetch_batches_around w bearer_token output_dir is_free_plan
                  (length (before ++ chunk :: after)) before chunk after _ _
                  (fetch_batch_no_data_key w bearer_token output_dir is_free_plan
                     _ _ _ _ _ Hbody Hnone)) as E.
    split; [exact E|].
    rewrite E. cbn [fst]. apply fetch_batches_keep_failed.
    cbn [add_failed failed_chunks]. apply in_or_app. right. now left.
  - intros items Hitems rest. subst rest.
    exact (fetch_batches_around w bearer_token output_dir is_free_plan
             (length (before ++ chunk :: after)) before chunk after _ _
             (fetch_batch_data_list w bearer_token output_dir is_free_plan
                _ _ _ _ _ _ Hbody Hitems)).
Qed.

Lemma missing_data_key_recorded_witness :
  In (1, ["1"])
    (failed_chunks
       (fst (fetch_batches (fair_world [] first_finds_nothing) "token" "data"
               true 2 1 [["1"]; ["2"]] start)))
  /\ all_tweets_data
       (fst (fetch_batches (fair_world [] first_finds_nothing) "token" "data"
               true 2 1 [["1"]; ["2"]] start))
     = [one_item "2"].
Proof.
  destruct (missing_data_key_recorded (fair_world [] first_finds_nothing)
              "token" "data" true [] ["1"] [["2"]]
              [("errors", JArr [JObj [("title", JStr "Not Found Error")]])]
              eq_refl) as [H _].
  destruct (H eq_refl) as [E Hin].
  split; [exact Hin|].
  cbn [app length] in E. rewrite E. reflexivity.
Defined.

(** C2 (as the specification words it) fails: a response whose [data] key
    holds an empty list is appended to the results and is not recorded as
    a failure. *)
Lemma empty_data_list_is_a_result :
  fst (fetch_batches
         (fair_world [] (fun _ => Body (JObj [("data", JArr [])])))
         "token" "data" true 1 1 [["1"]] start)
  = {| all_tweets_data := [JObj [("data", JArr [])]]; failed_chunks := [] |}.
Proof. reflexivity. Qed.

(** C6 (as the code has it). In every run each batch is requested once,
    in order.  When the [try] block of every batch runs to its end, the
    pauses sit between consecutive batches, one after every batch except
    the last: 900 in constrained mode; 60 in elevated mode when there
    are more than 15 batches; none in elevated mode otherwise. *)
Theorem pause_between_batches (w : World) (bearer_token output_dir : string)
    (is_free_plan : bool) (chunks : list (list string)) :
  let run := fetch_batches w bearer_token output_dir is_free_plan
               (length chunks) 1 chunks start in
  api_requests (snd run) = chunks
  /\ ((forall k chunk, nth_error chunks k = Some chunk ->
                       completes w bearer_token output_dir (S k) chunk) ->
      (is_free_plan = true -> snd run = paced [ESleep 900] chunks)
      /\ (is_free_plan = false -> 15 < length chunks ->
          snd run = paced [ESleep 60] chunks)
      /\ (is_free_plan = false -> length chunks <= 15 ->
          snd run = paced [] chunks /\ pauses (snd run) = [])).
Proof.
  intros run. subst run. split; [apply fetch_batches_requests|].
  intros Hall.
  assert (E : snd (fetch_batches w bearer_token output_dir is_free_plan
                     (length chunks) 1 chunks start)
              = paced (policy_pause is_free_plan (length chunks)) chunks).
  { apply fetch_batches_paced; [lia|]. intros k chunk Hk. now apply Hall. }
  rewrite E. unfold policy_pause. split; [|split].
  - intros ->. reflexivity.
  - intros -> Hlen. destruct (Nat.ltb_spec 15 (length chunks)); [reflexivity|lia].
  - intros -> Hlen. destruct (Nat.ltb_spec 15 (length chunks)); [lia|].
    split; [reflexivity|].
    clear. induction chunks as [|c [|c' rest] IH]; try reflexivity.
    exact IH.
Qed.

Lemma pause_between_batches_witness :
  snd (fetch_batches
         (fair_world [] (fun n => if n =? 2 then ConnectionFailed
                                  else Body (JObj [("data", JArr [])])))
         "token" "data" true 3 1 [["1"]; ["2"]; ["3"]] start)
  = [EApiGet ["1"]; ESleep 900; EApiGet ["2"]; ESleep 900; EApiGet ["3"]].
Proof.
  refine (proj1 (proj2 (pause_between_batches
                          (fair_world [] (fun n => if n =? 2 then ConnectionFailed
                                                   else Body (JObj [("data", JArr [])])))
                          "token" "data" true [["1"]; ["2"]; ["3"]]) _) eq_refl).
  intros [|[|[|k]]] chunk Hk; cbn in Hk.
  - injection Hk as <-. exists (JObj [("data", JArr [])]), true.
    repeat split. intros _. now exists 0.
  - injection Hk as <-. exists (JObj []), false. repeat split. discriminate.
  - injection Hk as <-. exists (JObj [("data", JArr [])]), true.
    repeat split. intros _. now exists 0.
  - destruct k; discriminate.
Defined.

(** C6 (as the specification words it) fails: in constrained mode the
    pause comes after the first of two batches, so none precedes the
    first batch and one precedes the last.  And no pause at all follows a
    batch whose [try] block is left by an exception: when the first
    response is the JSON number 5 the test of its [data] key raises, and
    the second request follows at once. *)
Lemma pause_follows_the_batch :
  snd (fetch_batches
         (fair_world [] (fun _ => Body (JObj [("data", JArr [])])))
         "token" "data" true 2 1 [["1"]; ["2"]] start)
  = [EApiGet ["1"]; ESleep 900; EApiGet ["2"]]
  /\ trace_as_specified true 2 1 [["1"]; ["2"]]
     = [ESleep 900; EApiGet ["1"]; EApiGet ["2"]]
  /\ fetch_batches (fair_world [] first_is_a_number) "token" "data" true 2 1
       [["1"]; ["2"]] start
     = ({| all_tweets_data := [JObj [("data", JArr [])]];
           failed_chunks := [(1, ["1"])] |},
        [EApiGet ["1"]; EApiGet ["2"]]).
Proof. repeat split. Qed.

(** ** Command entry point *)

Lemma fst_bindE {A B} (m : eff A) (k : A -> eff B) :
  fst (bindE m k)
  = match fst m with
    | Returns a => fst (k a)
    | Raises e => Raises e
    end.
Proof. unfold bindE. destruct (fst m); reflexivity. Qed.

Lemma fetch_all_tweets_outcome w tweet_ids token output_dir is_free_plan individual :
  exists chunks,
    chunk_list (sorted tweet_ids) 100 = Returns chunks
    /\ forall all,
        all = all_tweets_data
                (fst (fetch_batches w token output_dir is_free_plan
                        (length chunks) 1 chunks start)) ->
        fst (fetch_all_tweets w tweet_ids token output_dir is_free_plan individual)
        = match all with
          | [] => Returns tt
          | _ :: _ =>
              match fst (save_tweets_data w all output_dir individual) with
              | Returns _ =>
                  match total_count all with
                  | Returns _ => Returns tt
                  | Raises e => Raises e
                  end
              | Raises e => Raises e
              end
          end.
Proof.
  pose proof (chunk_list_unfold (sorted tweet_ids) 100 ltac:(lia)) as E.
  change (Z.of_nat 100) with 100%Z in E.
  eexists. split; [exact E|]. intros all Hall.
  unfold fetch_all_tweets. rewrite E, fst_bindE. cbn [lift fst].
  rewrite fst_bindE. cbn [fst]. rewrite <- Hall.
  destruct all as [|doc all]; [reflexivity|].
  rewrite fst_bindE.
  destruct (fst (save_tweets_data w (doc :: all) output_dir individual));
    [|reflexivity].
  rewrite fst_bindE. cbn [lift fst].
  destruct (total_count (doc :: all)); reflexivity.
Qed.

Section MainProofs.
Variables is_word is_digit : ascii -> bool.

Lemma main_in_extract_mode w args :
  reprocess_mode args = false ->
  main is_word is_digit w args = extract_mode is_word is_digit w args.
Proof.
  unfold reprocess_mode, nonempty, main.
  destruct (process_json args) as [json_file|]; [|reflexivity].
  intros ->. reflexivity.
Qed.

Lemma extract_mode_status w args :
  path_exists w [input_csv args] = true ->
  fst (extract_mode is_word is_digit w args)
  = match fst (main_body is_word is_digit w args) with
    | Returns status => status
    | Raises _ => 1%Z
    end.
Proof.
  unfold extract_mode. intros ->. cbn [negb].
  destruct (main_body is_word is_digit w args) as [[status|e] t]; reflexivity.
Qed.

(** C9 (as the code has it). In extract mode the exit status is 1 when
    the input file is missing, when reading it raises, when saving the
    identifier list raises, when fetching is requested without a
    credential, and when an exception leaves the fetch (saving the
    responses or the items); otherwise it is 0: no identifier found,
    no fetch requested, or a fetch that came to its end, whatever the
    batches that failed. *)
Theorem exit_status_of_extract_mode (w : World) (args : Args) :
  reprocess_mode args = false ->
  let status := fst (main is_word is_digit w args) in
  let collected :=
    extract_tweet_ids_from_csv is_word is_digit w (input_csv args) (column args) in
  (path_exists w [input_csv args] = false -> status = 1%Z)
  /\ (path_exists w [input_csv args] = true ->
      (forall e, collected = Raises e -> status = 1%Z)
      /\ (collected = Returns [] -> status = 0%Z)
      /\ (forall tweet_ids,
             collected = Returns tweet_ids -> tweet_ids <> [] ->
             let saved := fst (save_tweet_ids w tweet_ids (output_dir args)) in
             (forall e, saved = Raises e -> status = 1%Z)
             /\ (saved = Returns tt ->
                 (fetch_tweets args = false -> status = 0%Z)
                 /\ (fetch_tweets args = true ->
                     credential w args = None -> status = 1%Z)
                 /\ (forall token,
                        fetch_tweets args = true ->
                        credential w args = Some token ->
                        let individual :=
                          save_individual args && negb (no_save_individual args) in
                        let fetched :=
                          fst (fetch_all_tweets w tweet_ids token (output_dir args)
                                 (negb (paid_plan args)) individual) in
                        (fetched = Returns tt -> status = 0%Z)
                        /\ (forall e, fetched = Raises e -> status = 1%Z)
                        /\ (forall chunks,
                               chunk_list (sorted tweet_ids) 100 = Returns chunks ->
                               let run :=
                                 fetch_batches w token (output_dir args)
                                   (negb (paid_plan args)) (length chunks) 1
                                   chunks start in
                               all_tweets_data (fst run) = []
                               \/ (fst (save_tweets_data w
                                          (all_tweets_data (fst run))
                                          (output_dir args) individual)
                                   = Returns tt
                                   /\ exists n,
                                       total_count (all_tweets_data (fst run))
                                       = Returns n) ->
                               status = 0%Z))))).
Proof.
  intros Hmode status collected. subst status collected.
  rewrite (main_in_extract_mode w args Hmode). split.
  - intros Hmissing. unfold extract_mode. rewrite Hmissing. reflexivity.
  - intros Hthere. rewrite (extract_mode_status w args Hthere).
    unfold main_body. rewrite fst_bindE. cbn [lift fst].
    split; [intros e ->; reflexivity|].
    split; [intros ->; reflexivity|].
    intros tweet_ids -> Hne.
    destruct tweet_ids as [|id ids]; [congruence|].
    rewrite fst_bindE.
    split; [intros e ->; reflexivity|].
    intros ->.
    split; [intros ->; reflexivity|].
    split; [intros -> ->; reflexivity|].
    intros token -> ->.
    rewrite fst_bindE.
    split; [intros ->; reflexivity|].
    split; [intros e ->; reflexivity|].
    intros chunks Hchunks Hrun.
    destruct (fetch_all_tweets_outcome w (id :: ids) token (output_dir args)
                (negb (paid_plan args))
                (save_individual args && negb (no_save_individual args)))
      as (chunks' & Hchunks' & Hfetched).
    rewrite Hchunks in Hchunks'. injection Hchunks' as <-.
    rewrite (Hfetched _ eq_refl).
    destruct Hrun as [->|[Hsave [n Hn]]]; [reflexivity|].
    destruct (all_tweets_data _) as [|doc all]; [reflexivity|].
    rewrite Hsave, Hn. reflexivity.
Qed.
End MainProofs.

Lemma exit_status_of_extract_mode_witness :
  fst (main ascii_word ascii_digit
         (fair_world [["url"]; ["https://x.com/u/status/7"]]
            (fun _ => ConnectionFailed))
         (extract_args "in.csv" true (Some "token"))) = 0%Z.
Proof.
  destruct (exit_status_of_extract_mode ascii_word ascii_digit
              (fair_world [["url"]; ["https://x.com/u/status/7"]]
                 (fun _ => ConnectionFailed))
              (extract_args "in.csv" true (Some "token")) eq_refl)
    as [_ H].
  destruct (H eq_refl) as (_ & _ & H1).
  destruct (H1 ["7"] eq_refl ltac:(discriminate)) as [_ H2].
  destruct (H2 eq_refl) as (_ & _ & H3).
  destruct (H3 "token" eq_refl eq_refl) as (_ & _ & H4).
  apply (H4 [["7"]] eq_refl). left. reflexivity.
Defined.

(** C9 (as the specification words it) fails: the input file is there and
    no credential is asked for, yet the status is 1, because the file is
    not valid UTF-8 and the exception raised on reading it is caught by
    [main].  And in reprocess mode a missing document ends in a message
    and the status 0. *)
Lemma exit_status_one_without_setup_error :
  fst (main ascii_word ascii_digit undecodable_csv_world
         (extract_args "in.csv" false None)) = 1%Z
  /\ setup_error undecodable_csv_world (extract_args "in.csv" false None)
     = false
  /\ main ascii_word ascii_digit no_file_world
       (reprocess_args "tweets_data.json") = (0%Z, [])
  /\ setup_error no_file_world (reprocess_args "tweets_data.json") = true.
Proof. repeat split. Qed.

(* ================================================================== *)
(** * Part III: further properties of the program *)
(* ================================================================== *)

(** ** Chunker: sizes that are not positive, and the sizes of the chunks *)

(** X1. A chunk size of 0 makes [chunk_list] raise [ValueError] (the
    step of the range), and a negative one makes it return no chunk at
    all, whatever the list holds. *)
Theorem chunk_list_bad_size {A} (lst : list A) (chunk_size : Z) :
  (chunk_size = 0%Z -> chunk_list lst chunk_size = Raises ValueError)
  /\ ((chunk_size < 0)%Z -> chunk_list lst chunk_size = Returns []).
Proof.
  unfold chunk_list, py_range. split.
  - intros ->. reflexivity.
  - intros H.
    destruct (Z.eqb_spec chunk_size 0); [lia|].
    destruct (Z.ltb_spec chunk_size 0); [reflexivity|lia].
Qed.

Lemma chunk_list_bad_size_witness :
  chunk_list ["1"; "2"; "3"] 0 = Raises ValueError
  /\ chunk_list ["1"; "2"; "3"] (-2) = Returns [].
Proof.
  split.
  - apply (proj1 (chunk_list_bad_size ["1"; "2"; "3"] 0)). reflexivity.
  - apply (proj2 (chunk_list_bad_size ["1"; "2"; "3"] (-2))). reflexivity.
Defined.

Lemma range_chunk_lengths {A} (lst : list A) c fuel i :
  0 < c ->
  length lst <= i + fuel ->
  map (fun j => Nat.min c (length lst - j)) (range_from fuel i (length lst) c)
  = repeat c ((length lst - i) / c)
    ++ (if (length lst - i) mod c =? 0 then [] else [(length lst - i) mod c]).
Proof.
  intros Hc. revert i. induction fuel as [|fuel IH]; intros i Hfuel.
  - replace (length lst - i) with 0 by lia.
    rewrite Nat.Div0.div_0_l, Nat.Div0.mod_0_l. reflexivity.
  - cbn [range_from]. destruct (Nat.ltb_spec i (length lst)) as [Hlt|Hge].
    + cbn [map]. rewrite IH by lia.
      destruct (Nat.le_gt_cases c (length lst - i)) as [Hfull|Hshort].
      * replace (length lst - i) with ((length lst - (i + c)) + 1 * c) by lia.
        rewrite Nat.div_add, Nat.Div0.mod_add by lia.
        rewrite Nat.add_1_r. cbn [repeat app]. f_equal. lia.
      * replace (length lst - (i + c)) with 0 by lia.
        rewrite Nat.Div0.div_0_l, Nat.Div0.mod_0_l.
        rewrite Nat.div_small, Nat.mod_small by lia.
        destruct (Nat.eqb_spec (length lst - i) 0); [lia|].
        cbn. f_equal. lia.
    + replace (length lst - i) with 0 by lia.
      rewrite Nat.Div0.div_0_l, Nat.Div0.mod_0_l. reflexivity.
Qed.

(** X2. For a chunk size [c > 0] and a list of [n] elements the chunks
    are [n / c] chunks of exactly [c] elements, followed by one chunk of
    [n mod c] elements when [c] does not divide [n]. *)
Theorem chunk_list_sizes {A} (lst : list A) (c : nat) :
  0 < c ->
  exists chunks,
    chunk_list lst (Z.of_nat c) = Returns chunks
    /\ map (@length A) chunks
       = repeat c (length lst / c)
         ++ (if length lst mod c =? 0 then [] else [length lst mod c]).
Proof.
  intros Hc. rewrite (chunk_list_unfold lst c Hc).
  eexists. split; [reflexivity|].
  rewrite chunk_lengths, (range_chunk_lengths lst c) by lia.
  rewrite Nat.sub_0_r. reflexivity.
Qed.

Lemma chunk_list_sizes_witness :
  exists chunks,
    chunk_list ["a"; "b"; "c"; "d"; "e"; "f"; "g"] (Z.of_nat 3) = Returns chunks
    /\ map (@length string) chunks = [3; 3; 1].
Proof.
  destruct (chunk_list_sizes ["a"; "b"; "c"; "d"; "e"; "f"; "g"] 3)
    as (chunks & E & Hlen); [lia|].
  exists chunks. split; [exact E|exact Hlen].
Defined.

(** ** Extractor: what it returns and what it needs *)

Lemma run_all p s : str_all p (run p s) = true.
Proof.
  induction s as [|c s IH]; [reflexivity|].
  cbn [run]. destruct (p c) eqn:Hp; [|reflexivity].
  cbn [str_all]. now rewrite Hp.
Qed.

Section ExtractorFacts.
Variables is_word is_digit : ascii -> bool.

Lemma extracted_id_nonempty (url id : string) :
  extract_tweet_id_from_url is_word is_digit url = Some id -> id <> "".
Proof.
  intros H. apply extract_sound in H.
  now destruct H as (pre & scheme & host & user & rest & _ & _ & _ & _ & Hne & _).
Qed.

(** X3. Whatever the string, an identifier the extractor returns is a
    non-empty sequence of digits. *)
Theorem extracted_id_is_digits (url id : string) :
  extract_tweet_id_from_url is_word is_digit url = Some id ->
  id <> "" /\ str_all is_digit id = true.
Proof.
  intros H. split; [now apply (extracted_id_nonempty url)|].
  apply extract_sound in H.
  destruct H as (pre & scheme & host & user & rest & _ & _ & _ & _ & _ & Hrun).
  rewrite Hrun. apply run_all.
Qed.

Lemma occurs_inside pre mid post : occurs mid (pre ++ mid ++ post)%string.
Proof. now exists pre, post. Qed.

Lemma string_app_assoc (a b c : string) :
  ((a ++ b) ++ c)%string = (a ++ b ++ c)%string.
Proof. induction a as [|x a IH]; simpl; congruence. Qed.

(** X4. The host must follow the scheme at once: a string in which
    neither [://twitter.com/] nor [://x.com/] occurs gives [None], so a
    status URL on a subdomain such as [www.] or [mobile.] is not
    recognised. *)
Theorem extract_needs_bare_host (url : string) :
  ~ occurs "://twitter.com/" url ->
  ~ occurs "://x.com/" url ->
  extract_tweet_id_from_url is_word is_digit url = None.
Proof.
  intros Ht Hx.
  destruct (extract_tweet_id_from_url is_word is_digit url) as [id|] eqn:E;
    [|reflexivity].
  exfalso. apply extract_sound in E.
  destruct E as (pre & scheme & host & user & rest & -> & _ & [->| ->] & _).
  - apply Ht.
    exists (pre ++ scheme)%string, (user ++ "/status/" ++ id ++ rest)%string.
    rewrite string_app_assoc. reflexivity.
  - apply Hx.
    exists (pre ++ scheme)%string, (user ++ "/status/" ++ id ++ rest)%string.
    rewrite string_app_assoc. reflexivity.
Qed.
End ExtractorFacts.

Lemma extracted_id_is_digits_witness :
  "20" <> "" /\ str_all ascii_digit "20" = true.
Proof.
  apply (extracted_id_is_digits ascii_word ascii_digit
           "https://x.com/u/status/20/photo/1" "20").
  reflexivity.
Defined.

Lemma extract_needs_bare_host_witness :
  extract_tweet_id_from_url ascii_word ascii_digit
    "https://mobile.twitter.com/u/status/20" = None.
Proof.
  apply extract_needs_bare_host.
  - apply str_in_false. vm_compute. reflexivity.
  - apply str_in_false. vm_compute. reflexivity.
Defined.

(** ** Collector: the set it builds *)

Lemma set_add_in x ids y : In y (set_add x ids) <-> y = x \/ In y ids.
Proof.
  unfold set_add. destruct (existsb (String.eqb x) ids) eqn:E.
  - apply existsb_exists in E as (z & Hz & Hxz).
    apply String.eqb_eq in Hxz. subst z. intuition congruence.
  - rewrite in_app_iff. simpl. intuition congruence.
Qed.

Lemma set_add_nodup x ids : NoDup ids -> NoDup (set_add x ids).
Proof.
  intros Hnd. unfold set_add. destruct (existsb (String.eqb x) ids) eqn:E.
  - exact Hnd.
  - apply NoDup_app; [exact Hnd|repeat constructor; intros []|].
    intros y Hy [Heq|[]]. subst y.
    assert (existsb (String.eqb x) ids = true) as Ht.
    { apply existsb_exists. exists x. split; [exact Hy|apply String.eqb_refl]. }
    congruence.
Qed.

Lemma set_add_present x ids : In x ids -> set_add x ids = ids.
Proof.
  intros Hx. unfold set_add.
  assert (existsb (String.eqb x) ids = true) as ->; [|reflexivity].
  apply existsb_exists. exists x. split; [exact Hx|apply String.eqb_refl].
Qed.

Lemma zip_row_blank column fieldnames d u :
  assoc column (zip_row fieldnames [] d) = Some (Some u) ->
  assoc column d = Some (Some u).
Proof.
  revert d. induction fieldnames as [|f fs IH]; intros d H; [exact H|].
  cbn [zip_row] in H. apply IH in H. rewrite assoc_dict_set in H.
  destruct (f =? column)%string; [discriminate|exact H].
Qed.

Lemma row_cell_position fieldnames row column k :
  NoDup fieldnames ->
  nth_error fieldnames k = Some column ->
  row_cell fieldnames row column = Some (nth_error row k).
Proof.
  unfold row_cell. generalize (@nil (string * cell)) as d.
  revert row k. induction fieldnames as [|f fs IH]; intros row k d Hnd Hk.
  - destruct k; discriminate.
  - inversion Hnd as [|? ? Hf Hfs]; subst.
    destruct k as [|k]; cbn [nth_error] in Hk.
    + injection Hk as ->.
      destruct row as [|c cs]; cbn [zip_row nth_error];
        rewrite zip_row_absent, assoc_dict_set, String.eqb_refl by exact Hf;
        reflexivity.
    + destruct row as [|c cs]; cbn [zip_row nth_error].
      * rewrite (IH [] k _ Hfs Hk). now destruct k.
      * apply IH; assumption.
Qed.

Section CollectorFacts.
Variables is_word is_digit : ascii -> bool.

Lemma extract_of_empty :
  extract_tweet_id_from_url is_word is_digit "" = None.
Proof. reflexivity. Qed.

(** What a row adds to the set: the identifier of its cell, or nothing. *)
Lemma collect_row_cases column ids (row : list (string * cell)) :
  (exists u id,
      assoc column row = Some (Some u)
      /\ extract_tweet_id_from_url is_word is_digit u = Some id
      /\ collect_row is_word is_digit column ids row = set_add id ids)
  \/ ((forall u id,
          assoc column row = Some (Some u) ->
          extract_tweet_id_from_url is_word is_digit u <> Some id)
      /\ collect_row is_word is_digit column ids row = ids).
Proof.
  unfold collect_row. destruct (assoc column row) as [[u|]|].
  - destruct (String.eqb_spec u "") as [->|Hu]; cbn [negb].
    + right. split; [|reflexivity].
      intros u id [= <-]. rewrite extract_of_empty. discriminate.
    + destruct (extract_tweet_id_from_url is_word is_digit u) as [id|] eqn:E.
      * left. exists u, id. split; [reflexivity|]. split; [exact E|].
        pose proof (extracted_id_nonempty is_word is_digit u id E) as Hne.
        destruct (String.eqb_spec id ""); [contradiction|reflexivity].
      * right. split; [|reflexivity].
        intros u' id [= <-]. congruence.
  - right. split; [intros u id; discriminate|reflexivity].
  - right. split; [intros u id; discriminate|reflexivity].
Qed.

Lemma collect_fold_in column rows acc id :
  In id (fold_left (collect_row is_word is_digit column) rows acc)
  <-> In id acc
      \/ exists row u,
           In row rows /\ assoc column row = Some (Some u)
           /\ extract_tweet_id_from_url is_word is_digit u = Some id.
Proof.
  revert acc. induction rows as [|row rows IH]; intros acc; cbn [fold_left].
  - split; [auto|]. intros [H|(row & u & [] & _)]. exact H.
  - rewrite IH.
    destruct (collect_row_cases column acc row)
      as [(u & id' & Hu & He & ->)|[Hno ->]].
    + rewrite set_add_in. split.
      * intros [[->|H]|(r & u' & Hr & H)]; [right|now left|right].
        -- exists row, u. repeat split; auto. now left.
        -- exists r, u'. split; [now right|exact H].
      * intros [H|(r & u' & [<-|Hr] & Hc & Hx)]; [left; now right| |].
        -- left. left. congruence.
        -- right. now exists r, u'.
    + split.
      * intros [H|(r & u' & Hr & H)]; [now left|right].
        exists r, u'. split; [now right|exact H].
      * intros [H|(r & u' & [<-|Hr] & Hc & Hx)]; [now left| |].
        -- exfalso. exact (Hno u' id Hc Hx).
        -- right. now exists r, u'.
Qed.

Lemma collect_fold_nodup column rows acc :
  NoDup acc ->
  NoDup (fold_left (collect_row is_word is_digit column) rows acc).
Proof.
  revert acc. induction rows as [|row rows IH]; intros acc Hnd; [exact Hnd|].
  cbn [fold_left]. apply IH.
  destruct (collect_row_cases column acc row) as [(u & id & _ & _ & ->)|[_ ->]];
    [now apply set_add_nodup|exact Hnd].
Qed.

Lemma collect_fold_absorbed column rows acc :
  (forall row u id,
      In row rows -> assoc column row = Some (Some u) ->
      extract_tweet_id_from_url is_word is_digit u = Some id -> In id acc) ->
  fold_left (collect_row is_word is_digit column) rows acc = acc.
Proof.
  induction rows as [|row rows IH]; intros Hall; [reflexivity|].
  cbn [fold_left].
  destruct (collect_row_cases column acc row) as [(u & id & Hu & He & ->)|[_ ->]].
  - rewrite set_add_present by (apply (Hall row u id); auto; now left).
    apply IH. intros r u' id' Hr. apply Hall. now right.
  - apply IH. intros r u' id' Hr. apply Hall. now right.
Qed.

(** The identifiers collected from a table: those of the cells of its
    rows under the column. *)
Lemma collect_rows_in fieldnames body column id :
  In id (collect_rows is_word is_digit (fieldnames :: body) column)
  <-> exists row u,
        In row body /\ row_cell fieldnames row column = Some (Some u)
        /\ extract_tweet_id_from_url is_word is_digit u = Some id.
Proof.
  rewrite collect_rows_unfold, collect_fold_in. unfold row_cell. split.
  - intros [[]|(d & u & Hd & Hc & Hx)].
    apply in_map_iff in Hd as (row & <- & Hrow).
    apply filter_In in Hrow as [Hrow _]. now exists row, u.
  - intros (row & u & Hrow & Hc & Hx). right.
    exists (zip_row fieldnames row []), u. repeat split; auto.
    apply in_map_iff. exists row. split; [reflexivity|].
    apply filter_In. split; [exact Hrow|].
    destruct row; [|reflexivity].
    apply zip_row_blank in Hc. discriminate.
Qed.

(** X5. The collector returns a set: no identifier appears twice in its
    result, whatever the table holds. *)
Theorem collected_ids_are_distinct (rows : list (list string)) (column : string) :
  NoDup (collect_rows is_word is_digit rows column).
Proof.
  unfold collect_rows. apply collect_fold_nodup. constructor.
Qed.

(** X6. With a header row in which no name is repeated and the column
    in position [k], an identifier is collected exactly when some row
    holds, in position [k], a cell from which the extractor returns
    it. *)
Theorem collected_ids_by_position (fieldnames : list string)
    (body : list (list string)) (column : string) (k : nat) (id : string) :
  NoDup fieldnames ->
  nth_error fieldnames k = Some column ->
  (In id (collect_rows is_word is_digit (fieldnames :: body) column)
   <-> exists row u,
         In row body /\ nth_error row k = Some u
         /\ extract_tweet_id_from_url is_word is_digit u = Some id).
Proof.
  intros Hnd Hk. rewrite collect_rows_in. split.
  - intros (row & u & Hrow & Hc & Hx).
    rewrite (row_cell_position fieldnames row column k Hnd Hk) in Hc.
    injection Hc as Hc. now exists row, u.
  - intros (row & u & Hrow & Hc & Hx). exists row, u. repeat split; auto.
    rewrite (row_cell_position fieldnames row column k Hnd Hk). now f_equal.
Qed.

(** X7. The collected set does not depend on the order of the rows:
    tables with the same header whose rows are a permutation of each
    other give sets that are a permutation of each other. *)
Theorem collected_ids_order_independent (fieldnames : list string)
    (body body' : list (list string)) (column : string) :
  Permutation body body' ->
  Permutation (collect_rows is_word is_digit (fieldnames :: body) column)
              (collect_rows is_word is_digit (fieldnames :: body') column).
Proof.
  intros Hperm.
  apply NoDup_Permutation;
    try (unfold collect_rows; apply collect_fold_nodup; constructor).
  intros id. rewrite !collect_rows_in.
  split; intros (row & u & Hrow & H); exists row, u; split; auto.
  - now apply (Permutation_in _ Hperm).
  - now apply (Permutation_in _ (Permutation_sym Hperm)).
Qed.

(** X8. Rows that are met again add nothing: a table whose rows are
    listed twice gives the very same set as the table itself. *)
Theorem collected_ids_idempotent (fieldnames : list string)
    (body : list (list string)) (column : string) :
  collect_rows is_word is_digit (fieldnames :: body ++ body) column
  = collect_rows is_word is_digit (fieldnames :: body) column.
Proof.
  rewrite !collect_rows_unfold, filter_app, map_app, fold_left_app.
  apply collect_fold_absorbed. intros row u id Hrow Hc Hx.
  apply collect_fold_in. right. now exists row, u.
Qed.
End CollectorFacts.

Lemma collected_ids_by_position_witness :
  In "7" (collect_rows ascii_word ascii_digit
            [["title"; "url"]; ["a"; "https://x.com/u/status/7"]] "url").
Proof.
  apply (collected_ids_by_position ascii_word ascii_digit ["title"; "url"]
           [["a"; "https://x.com/u/status/7"]] "url" 1 "7").
  - repeat constructor; simpl; intuition discriminate.
  - reflexivity.
  - exists ["a"; "https://x.com/u/status/7"], "https://x.com/u/status/7".
    repeat split. now left.
Defined.

Lemma collected_ids_order_independent_witness :
  Permutation
    (collect_rows ascii_word ascii_digit
       [["url"]; ["https://x.com/u/status/7"]; ["https://x.com/u/status/8"]]
       "url")
    (collect_rows ascii_word ascii_digit
       [["url"]; ["https://x.com/u/status/8"]; ["https://x.com/u/status/7"]]
       "url").
Proof.
  apply collected_ids_order_independent. apply perm_swap.
Defined.

(** ** Identifier list: the order in which it is written *)

Lemma insert_sorted_perm x l : Permutation (x :: l) (insert_sorted x l).
Proof.
  induction l as [|y l IH]; cbn [insert_sorted]; [reflexivity|].
  destruct (x <=? y)%string; [reflexivity|].
  rewrite perm_swap. now apply perm_skip.
Qed.

Lemma sorted_perm l : Permutation l (sorted l).
Proof.
  induction l as [|x l IH]; [reflexivity|].
  cbn [sorted fold_right]. rewrite <- insert_sorted_perm. now apply perm_skip.
Qed.

Lemma insert_sorted_hd x y l :
  (y <=? x)%string = true ->
  HdRel (fun a b => (a <=? b)%string = true) y l ->
  HdRel (fun a b => (a <=? b)%string = true) y (insert_sorted x l).
Proof.
  intros Hyx Hhd. destruct l as [|z l]; cbn [insert_sorted].
  - now constructor.
  - destruct (x <=? z)%string; constructor; [exact Hyx|].
    now inversion Hhd.
Qed.

Lemma insert_sorted_sorted x l :
  Sorted (fun a b => (a <=? b)%string = true) l ->
  Sorted (fun a b => (a <=? b)%string = true) (insert_sorted x l).
Proof.
  induction 1 as [|y l Hs IH Hhd]; cbn [insert_sorted].
  - repeat constructor.
  - destruct (x <=? y)%string eqn:E.
    + constructor; [now constructor|now constructor].
    + constructor; [exact IH|].
      apply insert_sorted_hd; [|exact Hhd].
      destruct (String.leb_total x y); congruence.
Qed.

Lemma sorted_sorted l : Sorted (fun a b => (a <=? b)%string = true) (sorted l).
Proof.
  induction l as [|x l IH]; [constructor|].
  cbn [sorted fold_right]. now apply insert_sorted_sorted.
Qed.

(** X9. Saving the identifier list first makes the output directory; when
    that fails it raises and writes nothing.  Otherwise it writes one CSV
    file, [tweet_ids.csv] in that directory, whose rows are the header
    [tweet_id] and then the identifiers, each once per occurrence in the
    set, in ascending order. *)
Theorem save_tweet_ids_writes_sorted (w : World) (tweet_ids : list string)
    (output_dir : string) :
  (fs_mkdir w false [output_dir] = false ->
   save_tweet_ids w tweet_ids output_dir
   = (Raises OSError, [EMkdir false [output_dir]]))
  /\ (fs_mkdir w false [output_dir] = true ->
      exists ordered,
        Permutation tweet_ids ordered
        /\ Sorted (fun a b => (a <=? b)%string = true) ordered
        /\ save_tweet_ids w tweet_ids output_dir
           = (if fs_write w [output_dir; "tweet_ids.csv"]
              then Returns tt else Raises OSError,
              [EMkdir false [output_dir];
               EWriteCsv [output_dir; "tweet_ids.csv"]
                 (["tweet_id"] :: map (fun id => [id]) ordered)])).
Proof.
  unfold save_tweet_ids, bindE, mkdir, write_file. cbn [fst snd app]. split.
  - intros ->. reflexivity.
  - intros ->. exists (sorted tweet_ids).
    split; [apply sorted_perm|]. split; [apply sorted_sorted|].
    cbn [fst snd app]. reflexivity.
Qed.

Lemma save_tweet_ids_writes_sorted_witness :
  exists ordered,
    Permutation ["30"; "4"; "100"] ordered
    /\ Sorted (fun a b => (a <=? b)%string = true) ordered
    /\ snd (save_tweet_ids (fair_world [] (fun _ => ConnectionFailed))
              ["30"; "4"; "100"] "data")
       = [EMkdir false ["data"];
          EWriteCsv ["data"; "tweet_ids.csv"]
            (["tweet_id"] :: map (fun id => [id]) ordered)].
Proof.
  destruct (proj2 (save_tweet_ids_writes_sorted
                     (fair_world [] (fun _ => ConnectionFailed))
                     ["30"; "4"; "100"] "data") eq_refl)
    as (ordered & Hperm & Hsorted & E).
  exists ordered. split; [exact Hperm|]. split; [exact Hsorted|].
  rewrite E. reflexivity.
Defined.

(** ** One request, one download *)

(** X10. A call of [get_posts_from_x_api] makes exactly one request, for
    the identifiers it is given, and lets no [RequestException] out: a
    transport error, an error status and a body that fails to parse with
    a [RequestException] all give the empty object; a parsed body is
    returned as it is; only another exception of the parser escapes. *)
Theorem api_call_outcomes (w : World) (n : nat) (tweet_ids : list string)
    (bearer_token output_dir : string) :
  let call := get_posts_from_x_api w n tweet_ids bearer_token output_dir in
  snd call = [EApiGet tweet_ids]
  /\ fst call <> Raises RequestException
  /\ (forall doc, x_api w n bearer_token tweet_ids = Body doc ->
                  fst call = Returns doc)
  /\ (forall e, x_api w n bearer_token tweet_ids = InvalidBody e ->
                e <> RequestException -> fst call = Raises e)
  /\ ((forall doc, x_api w n bearer_token tweet_ids <> Body doc) ->
      (forall e, x_api w n bearer_token tweet_ids = InvalidBody e ->
                 e = RequestException) ->
      fst call = Returns (JObj [])).
Proof.
  intros call. subst call. split; [apply request_trace|].
  unfold get_posts_from_x_api, bindE. cbn [fst snd].
  destruct (x_api w n bearer_token tweet_ids) as [| |e|doc].
  - repeat split; try discriminate.
  - repeat split; try discriminate.
  - repeat split; try discriminate.
    + destruct e; discriminate.
    + intros e' [= <-] He. destruct e; try reflexivity. congruence.
    + intros _ He. now rewrite (He e eq_refl).
  - repeat split; try discriminate.
    + intros doc' [= <-]. reflexivity.
    + intros Hno. now destruct (Hno doc).
Qed.

(** A download reports success exactly when the request, the making
    of the parent directory and the write all succeed; it always starts
    with the request, and when the request fails it touches no
    directory and no file. *)
Theorem download_outcomes (w : World) (url : json) (filepath : path) :
  (fst (download_media_file w url filepath) = true
   <-> media_get w url = true
       /\ fs_mkdir w true (removelast filepath) = true
       /\ fs_write w filepath = true)
  /\ (exists rest, snd (download_media_file w url filepath) = EMediaGet url :: rest)
  /\ (media_get w url = false ->
      download_media_file w url filepath = (false, [EMediaGet url])).
Proof.
  unfold download_media_file.
  destruct (media_get w url), (fs_mkdir w true (removelast filepath)),
    (fs_write w filepath); cbn [fst snd];
    (split; [intuition congruence|split; [eexists; reflexivity|]]);
    intros; congruence.
Qed.

Lemma download_outcomes_witness :
  download_media_file no_file_world (JStr "https://pbs.twimg.com/media/a.jpg")
    ["data"; "individual_tweets"; "1"; "photo_1.jpg"]
  = (true,
     [EMediaGet (JStr "https://pbs.twimg.com/media/a.jpg");
      EMkdir true ["data"; "individual_tweets"; "1"];
      EWriteMedia ["data"; "individual_tweets"; "1"; "photo_1.jpg"]
        (JStr "https://pbs.twimg.com/media/a.jpg")])
  /\ fst (download_media_file no_file_world
            (JStr "https://pbs.twimg.com/media/a.jpg")
            ["data"; "individual_tweets"; "1"; "photo_1.jpg"]) = true.
Proof.
  split; [reflexivity|].
  apply (proj1 (download_outcomes no_file_world
                  (JStr "https://pbs.twimg.com/media/a.jpg")
                  ["data"; "individual_tweets"; "1"; "photo_1.jpg"])).
  repeat split.
Defined.

(** ** Effects: how traces compose *)

Lemma bindE_returns {A B} (a : A) (k : A -> eff B) :
  bindE (lift (Returns a)) k = k a.
Proof. unfold bindE, lift. cbn [fst snd app]. now destruct (k a). Qed.

Lemma bindE_raises {A B} (e : exn) (k : A -> eff B) :
  bindE (lift (Raises e)) k = (Raises e, []).
Proof. reflexivity. Qed.

Lemma snd_bindE {A B} (m : eff A) (k : A -> eff B) :
  snd (bindE m k)
  = snd m ++ match fst m with
             | Returns a => snd (k a)
             | Raises _ => []
             end.
Proof.
  unfold bindE. destruct (fst m); cbn [snd]; [reflexivity|].
  now rewrite app_nil_r.
Qed.

Lemma for_each_forall {S A} (P : event -> Prop) (f : S -> A -> eff S) l s :
  (forall s x, Forall P (snd (f s x))) ->
  Forall P (snd (for_each f l s)).
Proof.
  intros Hf. revert s. induction l as [|x l IH]; intros s; cbn [for_each].
  - constructor.
  - rewrite snd_bindE. apply Forall_app. split; [apply Hf|].
    destruct (fst (f s x)); [apply IH|constructor].
Qed.

(** ** Media resolver: the shapes a turn of the loop can take *)

Lemma fetch_media_shape w dir media_type filename media_url c :
  (exists e, fetch_media w dir media_type filename media_url c = (Raises e, []))
  \/ fetch_media w dir media_type filename media_url c = (Returns c, [])
  \/ exists extension,
       truthy media_url = true
       /\ get_media_extension media_type media_url = Returns extension
       /\ fetch_media w dir media_type filename media_url c
          = (Returns
               (if fst (download_media_file w media_url
                          (dir ++ [(filename ++ extension)%string]))
                then counted c else c),
             snd (download_media_file w media_url
                    (dir ++ [(filename ++ extension)%string]))).
Proof.
  unfold fetch_media. destruct (truthy media_url); [|now right; left].
  destruct (get_media_extension media_type media_url) as [extension|e].
  - right. right. exists extension. rewrite bindE_returns. auto.
  - left. exists e. apply bindE_raises.
Qed.

(** A turn of the loop raises before any event, or skips the key, or
    requests one file, for counters that differ from the ones it was
    given in the counts per type only. *)
Lemma resolve_media_shape w dir media_data c media_key :
  (exists e, resolve_media w dir media_data c media_key = (Raises e, []))
  \/ (exists c1,
         media_count c1 = media_count c
         /\ resolve_media w dir media_data c media_key = (Returns c1, []))
  \/ exists c1 url name,
       media_count c1 = media_count c
       /\ resolve_media w dir media_data c media_key
          = (Returns (if fst (download_media_file w url (dir ++ [name]))
                      then counted c1 else c1),
             snd (download_media_file w url (dir ++ [name]))).
Proof.
  assert (Hfetch : forall media_type filename media_url c1,
             media_count c1 = media_count c ->
             (exists e, fetch_media w dir media_type filename media_url c1
                        = (Raises e, []))
             \/ (exists c2, media_count c2 = media_count c
                            /\ fetch_media w dir media_type filename media_url c1
                               = (Returns c2, []))
             \/ exists c2 url name,
                  media_count c2 = media_count c
                  /\ fetch_media w dir media_type filename media_url c1
                     = (Returns (if fst (download_media_file w url (dir ++ [name]))
                                 then counted c2 else c2),
                        snd (download_media_file w url (dir ++ [name])))).
  { intros media_type filename media_url c1 Hc1.
    destruct (fetch_media_shape w dir media_type filename media_url c1)
      as [[e E]|[E|(extension & _ & _ & E)]]; rewrite E.
    - left. now exists e.
    - right. left. now exists c1.
    - right. right. now exists c1, media_url, (filename ++ extension)%string. }
  unfold resolve_media.
  destruct (py_iter media_data) as [descriptors|e];
    [rewrite bindE_returns|left; exists e; apply bindE_raises].
  destruct (find_media descriptors media_key) as [media_info|e];
    [rewrite bindE_returns|left; exists e; apply bindE_raises].
  destruct (truthy media_info); cbn [negb]; [|right; left; now exists c].
  destruct (py_get media_info "type" (JStr "")) as [media_type|e];
    [rewrite bindE_returns|left; exists e; apply bindE_raises].
  destruct (py_eq media_type (JStr "photo")).
  { destruct (py_get media_info "url" (JStr "")) as [media_url|e];
      [rewrite bindE_returns|left; exists e; apply bindE_raises].
    now apply Hfetch. }
  destruct (py_eq media_type (JStr "video")).
  { destruct (py_get media_info "variants" (JArr [])) as [variants|e];
      [rewrite bindE_returns|left; exists e; apply bindE_raises].
    destruct (py_iter variants) as [vs|e];
      [rewrite bindE_returns|left; exists e; apply bindE_raises].
    destruct (select_variant vs (JNum 0) (JStr "")) as [media_url|e];
      [rewrite bindE_returns|left; exists e; apply bindE_raises].
    now apply Hfetch. }
  destruct (py_eq media_type (JStr "animated_gif")).
  { destruct (py_get media_info "variants" (JArr [])) as [variants|e];
      [rewrite bindE_returns|left; exists e; apply bindE_raises].
    match goal with
    | |- context [bindE (lift ?o) _] =>
        destruct o as [media_url|e];
          [rewrite bindE_returns|left; exists e; apply bindE_raises]
    end.
    now apply Hfetch. }
  right. left. now exists c.
Qed.

Lemma bindE_event {B} (o : outcome unit) (ev : event) (k : unit -> eff B) :
  bindE (o, [ev]) k
  = match o with
    | Returns a => (fst (k a), ev :: snd (k a))
    | Raises e => (Raises e, [ev])
    end.
Proof. unfold bindE. cbn [fst snd]. destruct o; reflexivity. Qed.

Lemma bindE_final {S} (m : eff S) (f : S -> nat) :
  bindE m (fun s => ret (f s))
  = (match fst m with
     | Returns s => Returns (f s)
     | Raises e => Raises e
     end, snd m).
Proof.
  unfold bindE, ret. destruct (fst m); cbn [fst snd]; [|reflexivity].
  now rewrite app_nil_r.
Qed.

(** The ways [save_individual_tweet] can go: it performs no event at all;
    or the item has a non-empty string for identifier, and then it stops
    at the directory it could not make, or goes no further than the item
    document, or runs the loop over the media keys after the two. *)
Lemma save_individual_tweet_shape w tweet_data includes_data output_dir :
  (exists r, save_individual_tweet w tweet_data includes_data output_dir = (r, []))
  \/ exists id,
       py_get tweet_data "id" JNull = Returns (JStr id)
       /\ id <> ""
       /\ ((save_individual_tweet w tweet_data includes_data output_dir
            = (Raises OSError, [EMkdir true [output_dir; "individual_tweets"; id]])
            /\ fs_mkdir w true [output_dir; "individual_tweets"; id] = false)
           \/ (exists r,
                  save_individual_tweet w tweet_data includes_data output_dir
                  = (r, [EMkdir true [output_dir; "individual_tweets"; id];
                         EWriteJson [output_dir; "individual_tweets"; id; "tweet.json"]
                           tweet_data])
                  /\ (r = Returns 0 \/ exists e, r = Raises e))
           \/ exists media_data keys,
                save_individual_tweet w tweet_data includes_data output_dir
                = (match fst (for_each
                                (resolve_media w [output_dir; "individual_tweets"; id]
                                   media_data) keys
                                {| photo_count := 0; video_count := 0;
                                   gif_count := 0; media_count := 0 |}) with
                   | Returns c => Returns (media_count c)
                   | Raises e => Raises e
                   end,
                   [EMkdir true [output_dir; "individual_tweets"; id];
                    EWriteJson [output_dir; "individual_tweets"; id; "tweet.json"]
                      tweet_data]
                   ++ snd (for_each
                             (resolve_media w [output_dir; "individual_tweets"; id]
                                media_data) keys
                             {| photo_count := 0; video_count := 0;
                                gif_count := 0; media_count := 0 |}))).
Proof.
  unfold save_individual_tweet.
  destruct (py_get tweet_data "id" JNull) as [tweet_id|e] eqn:Hid;
    [rewrite bindE_returns|left; eexists; apply bindE_raises].
  destruct (truthy tweet_id) eqn:Htruthy; cbn [negb];
    [|left; eexists; reflexivity].
  destruct tweet_id as [|b|n|id|items|fields];
    try (left; eexists; apply bindE_raises).
  rewrite bindE_returns. right. exists id. split; [reflexivity|].
  split.
  { intros ->. discriminate. }
  unfold mkdir, write_file. rewrite bindE_event. cbn [app].
  destruct (fs_mkdir w true [output_dir; "individual_tweets"; id]);
    [|left; split; reflexivity].
  right. rewrite bindE_event.
  destruct (fs_write w [output_dir; "individual_tweets"; id; "tweet.json"]);
    [|left; eexists; split; [reflexivity|right; eexists; reflexivity]].
  destruct (py_get includes_data "media" (JArr [])) as [media_data|e];
    [rewrite bindE_returns
    |left; eexists; rewrite bindE_raises; split;
       [reflexivity|right; eexists; reflexivity]].
  match goal with
  | |- context [bindE (lift ?o) _] =>
      destruct o as [attached|e];
        [rewrite bindE_returns
        |left; eexists; rewrite bindE_raises; split;
           [reflexivity|right; eexists; reflexivity]]
  end.
  destruct attached;
    [|left; eexists; split; [reflexivity|left; reflexivity]].
  destruct (py_getitem tweet_data "attachments") as [attachments|e];
    [rewrite bindE_returns
    |left; eexists; rewrite bindE_raises; split;
       [reflexivity|right; eexists; reflexivity]].
  destruct (py_get attachments "media_keys" (JArr [])) as [media_keys|e];
    [rewrite bindE_returns
    |left; eexists; rewrite bindE_raises; split;
       [reflexivity|right; eexists; reflexivity]].
  destruct (py_iter media_keys) as [keys|e];
    [rewrite bindE_returns
    |left; eexists; rewrite bindE_raises; split;
       [reflexivity|right; eexists; reflexivity]].
  right. exists media_data, keys. rewrite bindE_final. reflexivity.
Qed.

(** ** Per-item persistence: where it writes and what it counts *)

Lemma download_confined w url dir name :
  Forall (confined dir) (snd (download_media_file w url (dir ++ [name]))).
Proof.
  unfold download_media_file. rewrite removelast_last.
  destruct (media_get w url), (fs_mkdir w true dir); cbn [snd];
    repeat constructor. now exists name.
Qed.

Lemma download_gets w url filepath :
  media_gets (snd (download_media_file w url filepath)) = 1.
Proof.
  unfold download_media_file.
  destruct (media_get w url), (fs_mkdir w true (removelast filepath));
    reflexivity.
Qed.

Lemma resolve_media_confined w dir media_data c media_key :
  Forall (confined dir) (snd (resolve_media w dir media_data c media_key)).
Proof.
  destruct (resolve_media_shape w dir media_data c media_key)
    as [[e E]|[(c1 & _ & E)|(c1 & url & name & _ & E)]]; rewrite E; cbn [snd].
  - constructor.
  - constructor.
  - apply download_confined.
Qed.

Lemma media_gets_app t1 t2 : media_gets (t1 ++ t2) = media_gets t1 + media_gets t2.
Proof.
  induction t1 as [|ev t1 IH]; [reflexivity|].
  destruct ev; cbn [app media_gets]; rewrite IH; reflexivity.
Qed.

Lemma resolve_media_counts w dir media_data c media_key :
  media_gets (snd (resolve_media w dir media_data c media_key)) <= 1
  /\ forall c',
       fst (resolve_media w dir media_data c media_key) = Returns c' ->
       media_count c <= media_count c'
       /\ media_count c'
          <= media_count c
             + media_gets (snd (resolve_media w dir media_data c media_key)).
Proof.
  destruct (resolve_media_shape w dir media_data c media_key)
    as [[e E]|[(c1 & Hc1 & E)|(c1 & url & name & Hc1 & E)]]; rewrite E;
    cbn [fst snd media_gets].
  - split; [lia|discriminate].
  - split; [lia|]. intros c' [= <-]. lia.
  - rewrite download_gets. split; [lia|]. intros c' [= <-].
    destruct (fst (download_media_file w url (dir ++ [name])));
      cbn [counted media_count]; lia.
Qed.

Lemma media_loop_counts w dir media_data keys c :
  media_gets (snd (for_each (resolve_media w dir media_data) keys c))
  <= length keys
  /\ forall c',
       fst (for_each (resolve_media w dir media_data) keys c) = Returns c' ->
       media_count c <= media_count c'
       /\ media_count c'
          <= media_count c
             + media_gets (snd (for_each (resolve_media w dir media_data) keys c)).
Proof.
  revert c. induction keys as [|key keys IH]; intros c; cbn [for_each length].
  - cbn. split; [lia|]. intros c' [= <-]. lia.
  - rewrite snd_bindE, fst_bindE, media_gets_app.
    destruct (resolve_media_counts w dir media_data c key) as [Hone Hstep].
    destruct (fst (resolve_media w dir media_data c key)) as [c1|e].
    + destruct (IH c1) as [Hlen Hrest].
      destruct (Hstep c1 eq_refl) as [Hlo Hhi].
      split; [lia|]. intros c' Hc'.
      destruct (Hrest c' Hc'). lia.
    + cbn [media_gets]. split; [lia|discriminate].
Qed.

(** *** Where the files of an item lie *)

Lemma split_slash_plain s :
  str_all (fun c => negb (c =? "/")%char) s = true -> split_slash s = [s].
Proof.
  induction s as [|c s IH]; [reflexivity|].
  cbn [str_all split_slash]. intros H. apply andb_prop in H as [Hc Hs].
  apply negb_true_iff in Hc. rewrite Hc, (IH Hs). reflexivity.
Qed.

Lemma plain_spec s :
  plain s = true ->
  s <> "" /\ s <> "." /\ s <> ".."
  /\ str_all (fun c => negb (c =? "/")%char) s = true.
Proof.
  unfold plain. intros H.
  apply andb_prop in H as [H H4]. apply andb_prop in H as [H H3].
  apply andb_prop in H as [H1 H2].
  apply negb_true_iff in H1, H2, H3.
  repeat split; auto; intros ->; discriminate.
Qed.

Lemma parts_plain s : plain s = true -> parts s = [s].
Proof.
  intros H. destruct (plain_spec s H) as (H1 & H2 & _ & H4).
  unfold parts. rewrite (split_slash_plain s H4). cbn [filter].
  apply String.eqb_neq in H1, H2. rewrite H1, H2. reflexivity.
Qed.

Lemma plain_relative s : plain s = true -> prefix "/" s = false.
Proof.
  intros H. destruct (plain_spec s H) as (H1 & _ & _ & H4).
  destruct s as [|c s]; [congruence|].
  cbn [str_all] in H4. apply andb_prop in H4 as [Hc _].
  apply negb_true_iff in Hc. cbn [prefix].
  destruct (ascii_dec "/" c) as [<-|_]; [discriminate|reflexivity].
Qed.

(** Joining a plain name adds one component. *)
Lemma lexical_plain p s :
  plain s = true -> lexical (p ++ [s]) = below (lexical p) [s].
Proof.
  intros H. unfold lexical. rewrite fold_left_app. cbn [fold_left].
  unfold joinpath. rewrite (plain_relative s H), (parts_plain s H).
  reflexivity.
Qed.

Lemma lexical_item output_dir id :
  plain id = true ->
  lexical [output_dir; "individual_tweets"; id]
  = below (lexical [output_dir]) ["individual_tweets"; id].
Proof.
  intros H.
  change [output_dir; "individual_tweets"; id]
    with (([output_dir] ++ ["individual_tweets"]) ++ [id]).
  rewrite (lexical_plain _ id H), (lexical_plain _ "individual_tweets" eq_refl).
  unfold below. cbn [fst snd]. now rewrite <- app_assoc.
Qed.

Lemma lexical_entry output_dir id name :
  plain id = true -> plain name = true ->
  lexical ([output_dir; "individual_tweets"; id] ++ [name])
  = below (below (lexical [output_dir]) ["individual_tweets"; id]) [name].
Proof.
  intros Hid Hname. now rewrite (lexical_plain _ name Hname), lexical_item.
Qed.

(** The names of the media files are plain. *)
Lemma str_all_app p a b :
  str_all p (a ++ b)%string = str_all p a && str_all p b.
Proof.
  induction a as [|c a IH]; [reflexivity|].
  cbn [append str_all]. rewrite IH. apply andb_assoc.
Qed.

Lemma decimal_no_slash d :
  str_all (fun c => negb (c =? "/")%char) (NilZero.string_of_uint d) = true.
Proof.
  assert (H : forall d,
             str_all (fun c => negb (c =? "/")%char) (NilEmpty.string_of_uint d)
             = true)
    by (intros d'; induction d'; cbn; auto).
  destruct d; try reflexivity; apply (H _).
Qed.

Lemma extension_no_slash media_type url extension :
  get_media_extension media_type url = Returns extension ->
  str_all (fun c => negb (c =? "/")%char) extension = true.
Proof.
  unfold get_media_extension, bind.
  repeat match goal with
         | |- context [match ?x with _ => _ end] => destruct x
         end;
    intros H; try discriminate; injection H as <-; reflexivity.
Qed.

Lemma media_name_plain prefix n media_type url extension :
  In prefix ["photo_"; "video_"; "gif_"] ->
  get_media_extension media_type url = Returns extension ->
  plain (numbered prefix n ++ extension) = true.
Proof.
  intros Hp He. apply extension_no_slash in He.
  assert (Hrest : str_all (fun c => negb (c =? "/")%char)
                    (NilZero.string_of_uint (Nat.to_uint n) ++ extension)%string
                  = true)
    by (rewrite str_all_app, decimal_no_slash, He; reflexivity).
  unfold numbered.
  destruct Hp as [<-|[<-|[<-|[]]]];
    cbn [append]; unfold plain;
    cbn [String.eqb Ascii.eqb Bool.eqb negb andb str_all];
    exact Hrest.
Qed.

Lemma download_inside w url output_dir id name :
  plain id = true -> plain name = true ->
  Forall (inside output_dir id)
    (snd (download_media_file w url
            ([output_dir; "individual_tweets"; id] ++ [name]))).
Proof.
  intros Hid Hname. unfold download_media_file. rewrite removelast_last.
  destruct (media_get w url),
    (fs_mkdir w true [output_dir; "individual_tweets"; id]); cbn [snd];
    repeat constructor; try (now apply lexical_item).
  exists name. split; [exact Hname|]. now apply lexical_entry.
Qed.

Lemma fetch_media_inside w output_dir id media_type prefix n media_url c :
  plain id = true ->
  In prefix ["photo_"; "video_"; "gif_"] ->
  Forall (inside output_dir id)
    (snd (fetch_media w [output_dir; "individual_tweets"; id] media_type
            (numbered prefix n) media_url c)).
Proof.
  intros Hid Hp.
  destruct (fetch_media_shape w [output_dir; "individual_tweets"; id]
              media_type (numbered prefix n) media_url c)
    as [[e E]|[E|(extension & _ & He & E)]]; rewrite E; cbn [snd].
  - constructor.
  - constructor.
  - apply download_inside; [exact Hid|].
    now apply (media_name_plain prefix n media_type media_url).
Qed.

Lemma resolve_media_inside w output_dir id media_data c media_key :
  plain id = true ->
  Forall (inside output_dir id)
    (snd (resolve_media w [output_dir; "individual_tweets"; id] media_data c
            media_key)).
Proof.
  intros Hid. unfold resolve_media.
  destruct (py_iter media_data) as [descriptors|e];
    [rewrite bindE_returns|rewrite bindE_raises; constructor].
  destruct (find_media descriptors media_key) as [media_info|e];
    [rewrite bindE_returns|rewrite bindE_raises; constructor].
  destruct (truthy media_info); cbn [negb]; [|constructor].
  destruct (py_get media_info "type" (JStr "")) as [media_type|e];
    [rewrite bindE_returns|rewrite bindE_raises; constructor].
  destruct (py_eq media_type (JStr "photo")).
  { destruct (py_get media_info "url" (JStr "")) as [media_url|e];
      [rewrite bindE_returns|rewrite bindE_raises; constructor].
    apply fetch_media_inside; [exact Hid|now left]. }
  destruct (py_eq media_type (JStr "video")).
  { destruct (py_get media_info "variants" (JArr [])) as [variants|e];
      [rewrite bindE_returns|rewrite bindE_raises; constructor].
    destruct (py_iter variants) as [vs|e];
      [rewrite bindE_returns|rewrite bindE_raises; constructor].
    destruct (select_variant vs (JNum 0) (JStr "")) as [media_url|e];
      [rewrite bindE_returns|rewrite bindE_raises; constructor].
    apply fetch_media_inside; [exact Hid|now right; left]. }
  destruct (py_eq media_type (JStr "animated_gif")).
  { destruct (py_get media_info "variants" (JArr [])) as [variants|e];
      [rewrite bindE_returns|rewrite bindE_raises; constructor].
    match goal with
    | |- context [bindE (lift ?o) _] =>
        destruct o as [media_url|e];
          [rewrite bindE_returns|rewrite bindE_raises; constructor]
    end.
    apply fetch_media_inside; [exact Hid|now right; right; left]. }
  constructor.
Qed.

(** Without a plain identifier the joins go elsewhere: an identifier that
    starts with a slash replaces the output directory, and [..] stays in
    the path as a component for the system to follow.  The item below
    has its directory made at [/tmp/x]. *)
Lemma identifier_that_is_not_plain :
  lexical ["data"; "individual_tweets"; "/tmp/x"] = ("/", ["tmp"; "x"])
  /\ lexical ["data"; "individual_tweets"; ".."]
     = ("", ["data"; "individual_tweets"; ".."])
  /\ lexical ["data"; "individual_tweets"; "20"]
     = ("", ["data"; "individual_tweets"; "20"])
  /\ exists p rest,
       snd (save_individual_tweet (fair_world [] (fun _ => ConnectionFailed))
              (JObj [("id", JStr "/tmp/x")]) (JObj []) "data")
       = EMkdir true p :: rest
       /\ lexical p = ("/", ["tmp"; "x"]).
Proof.
  repeat split; try reflexivity.
  eexists. eexists. split; reflexivity.
Qed.

(** X11. For an item whose identifier is a plain file name (not empty,
    without a slash, neither [.] nor [..]), every event of
    [save_individual_tweet] stays inside the directory
    [individual_tweets/<id>] of the output directory, with the paths read
    as [pathlib] joins them: the directory itself, its [tweet.json], media
    requests, and files written directly in the directory under names that
    are plain themselves.  It makes no API request, no pause and writes no
    CSV file. *)
Theorem item_events_are_confined (w : World) (tweet_data includes_data : json)
    (output_dir id : string) (ev : event) :
  py_get tweet_data "id" JNull = Returns (JStr id) ->
  plain id = true ->
  In ev (snd (save_individual_tweet w tweet_data includes_data output_dir)) ->
  inside output_dir id ev.
Proof.
  intros Hget Hplain.
  destruct (save_individual_tweet_shape w tweet_data includes_data output_dir)
    as [[r E]|(id' & Hid & _ & [[E _]|[(r & E & _)|(media_data & keys & E)]])];
    rewrite E; cbn [snd]; intros Hin.
  - destruct Hin.
  - assert (id' = id) as -> by congruence.
    destruct Hin as [<-|[]]. now apply lexical_item.
  - assert (id' = id) as -> by congruence.
    destruct Hin as [<-|[<-|[]]].
    + now apply lexical_item.
    + now apply (lexical_entry output_dir id "tweet.json").
  - assert (id' = id) as -> by congruence.
    cbn [app] in Hin. destruct Hin as [<-|[<-|Hin]].
    + now apply lexical_item.
    + now apply (lexical_entry output_dir id "tweet.json").
    + revert ev Hin. apply Forall_forall, for_each_forall.
      intros c key. now apply resolve_media_inside.
Qed.

Lemma item_events_are_confined_witness :
  inside "data" "20"
    (EWriteMedia ["data"; "individual_tweets"; "20"; "photo_2.png"]
       (JStr "https://pbs.twimg.com/media/b.png")).
Proof.
  apply (item_events_are_confined (fair_world [] (fun _ => ConnectionFailed))
           photo_item photo_includes "data" "20").
  - reflexivity.
  - reflexivity.
  - vm_compute. do 7 right. left. reflexivity.
Defined.

(** X12. The count [save_individual_tweet] returns is at most the number
    of media requests it made, which is at most the number of media keys
    of the item it looped over; an item that gives rise to no media
    request returns 0. *)
Theorem media_count_is_bounded (w : World) (tweet_data includes_data : json)
    (output_dir : string) (n : nat) :
  fst (save_individual_tweet w tweet_data includes_data output_dir) = Returns n ->
  n <= media_gets (snd (save_individual_tweet w tweet_data includes_data output_dir))
  /\ (n = 0
      \/ exists attachments media_keys keys,
           py_getitem tweet_data "attachments" = Returns attachments
           /\ py_get attachments "media_keys" (JArr []) = Returns media_keys
           /\ py_iter media_keys = Returns keys
           /\ n <= length keys).
Proof.
  intros Hn.
  assert (Hzero : forall r,
             save_individual_tweet w tweet_data includes_data output_dir = (r, []) ->
             n = 0).
  { intros r E. rewrite E in Hn. cbn [fst] in Hn. subst r.
    revert E. unfold save_individual_tweet.
    destruct (py_get tweet_data "id" JNull) as [tweet_id|e];
      [rewrite bindE_returns|rewrite bindE_raises; discriminate].
    destruct (truthy tweet_id); cbn [negb];
      [|intros H; unfold ret in H; congruence].
    destruct tweet_id; try (rewrite bindE_raises; discriminate).
    rewrite bindE_returns. unfold mkdir. rewrite bindE_event.
    destruct (fs_mkdir w true _); discriminate. }
  split.
  - destruct (save_individual_tweet_shape w tweet_data includes_data output_dir)
      as [[r E]|(id & Hid & Hne & [[E _]|[(r & E & Hr)|(media_data & keys & E)]])].
    + rewrite (Hzero r E). lia.
    + rewrite E in Hn. discriminate.
    + rewrite E in Hn. cbn [fst] in Hn. subst r.
      destruct Hr as [H|[e H]]; [|discriminate]. injection H as ->. lia.
    + rewrite E in *. cbn [fst snd app media_gets] in *.
      destruct (media_loop_counts w [output_dir; "individual_tweets"; id]
                  media_data keys
                  {| photo_count := 0; video_count := 0;
                     gif_count := 0; media_count := 0 |}) as [_ Hloop].
      destruct (fst (for_each _ keys _)) as [c|e]; [|discriminate].
      injection Hn as <-. destruct (Hloop c eq_refl) as [_ H].
      cbn [media_count] in H. lia.
  - revert Hn. unfold save_individual_tweet.
    destruct (py_get tweet_data "id" JNull) as [tweet_id|e];
      [rewrite bindE_returns|rewrite bindE_raises; discriminate].
    destruct (truthy tweet_id); cbn [negb];
      [|intros H; cbn in H; left; congruence].
    destruct tweet_id as [| | |id| |]; try (rewrite bindE_raises; discriminate).
    rewrite bindE_returns. unfold mkdir, write_file. rewrite bindE_event.
    destruct (fs_mkdir w true _); [|discriminate].
    rewrite bindE_event. destruct (fs_write w _); [|discriminate].
    cbn [fst].
    destruct (py_get includes_data "media" (JArr [])) as [media_data|e];
      [rewrite bindE_returns|rewrite bindE_raises; discriminate].
    match goal with
    | |- context [bindE (lift ?o) _] =>
        destruct o as [attached|e];
          [rewrite bindE_returns|rewrite bindE_raises; discriminate]
    end.
    destruct attached; [|intros H; cbn in H; left; congruence].
    destruct (py_getitem tweet_data "attachments") as [attachments|e] eqn:Ha;
      [rewrite bindE_returns|rewrite bindE_raises; discriminate].
    destruct (py_get attachments "media_keys" (JArr [])) as [media_keys|e] eqn:Hk;
      [rewrite bindE_returns|rewrite bindE_raises; discriminate].
    destruct (py_iter media_keys) as [keys|e] eqn:Hi;
      [rewrite bindE_returns|rewrite bindE_raises; discriminate].
    rewrite bindE_final. cbn [fst].
    destruct (media_loop_counts w [output_dir; "individual_tweets"; id]
                media_data keys
                {| photo_count := 0; video_count := 0;
                   gif_count := 0; media_count := 0 |}) as [Hlen Hloop].
    destruct (fst (for_each _ keys _)) as [c|e]; [|discriminate].
    intros H. injection H as H. right. exists attachments, media_keys, keys.
    repeat split; auto. destruct (Hloop c eq_refl) as [_ H'].
    cbn [media_count] in H'. lia.
Qed.

Lemma media_count_is_bounded_witness :
  2 <= media_gets
         (snd (save_individual_tweet (fair_world [] (fun _ => ConnectionFailed))
                 photo_item photo_includes "data")).
Proof.
  apply (media_count_is_bounded (fair_world [] (fun _ => ConnectionFailed))
           photo_item photo_includes "data" 2).
  vm_compute. reflexivity.
Defined.

Lemma truthy_string u : u <> "" -> truthy (JStr u) = true.
Proof.
  intros Hu. cbn [truthy]. destruct (String.eqb_spec u ""); [contradiction|].
  reflexivity.
Qed.

(** X13. An item with a non-empty string identifier whose side table has
    no media, or which has no attachments, is persisted as its directory
    and its [tweet.json] alone, holding the item as it was received, and
    the count is 0; and for any such identifier, when the directory
    cannot be made, the item document is not written and no media is
    requested. *)
Theorem item_without_media (w : World) (fields includes : list (string * json))
    (id output_dir : string) :
  assoc "id" fields = Some (JStr id) ->
  id <> "" ->
  (fs_mkdir w true [output_dir; "individual_tweets"; id] = false ->
   forall includes_data,
     save_individual_tweet w (JObj fields) includes_data output_dir
     = (Raises OSError, [EMkdir true [output_dir; "individual_tweets"; id]]))
  /\ (fs_mkdir w true [output_dir; "individual_tweets"; id] = true ->
      fs_write w [output_dir; "individual_tweets"; id; "tweet.json"] = true ->
      assoc "media" includes = None \/ assoc "attachments" fields = None ->
      save_individual_tweet w (JObj fields) (JObj includes) output_dir
      = (Returns 0,
         [EMkdir true [output_dir; "individual_tweets"; id];
          EWriteJson [output_dir; "individual_tweets"; id; "tweet.json"]
            (JObj fields)])).
Proof.
  intros Hid Hne.
  assert (Hstart : forall includes_data,
             save_individual_tweet w (JObj fields) includes_data output_dir
             = bindE (mkdir w true [output_dir; "individual_tweets"; id])
                 (fun _ =>
                    bindE (write_file w
                             [output_dir; "individual_tweets"; id; "tweet.json"]
                             (EWriteJson
                                [output_dir; "individual_tweets"; id; "tweet.json"]
                                (JObj fields)))
                      (fun _ =>
                         media_data <~ lift (py_get includes_data "media" (JArr [])) ;;
                         attached <~ lift (if truthy media_data
                                           then py_contains "attachments" (JObj fields)
                                           else Returns false) ;;
                         if attached then
                           attachments <~ lift (py_getitem (JObj fields) "attachments") ;;
                           media_keys <~ lift (py_get attachments "media_keys" (JArr [])) ;;
                           keys <~ lift (py_iter media_keys) ;;
                           c <~ for_each
                                  (resolve_media w
                                     [output_dir; "individual_tweets"; id] media_data)
                                  keys
                                  {| photo_count := 0; video_count := 0;
                                     gif_count := 0; media_count := 0 |} ;;
                           ret (media_count c)
                         else ret 0))).
  { intros includes_data. unfold save_individual_tweet.
    cbn [py_get]. rewrite Hid, bindE_returns, (truthy_string id Hne).
    cbn [negb]. rewrite bindE_returns. reflexivity. }
  split.
  - intros Hmk includes_data. rewrite Hstart. unfold mkdir.
    rewrite bindE_event, Hmk. reflexivity.
  - intros Hmk Hwr Hnone. rewrite Hstart. unfold mkdir, write_file.
    rewrite bindE_event, Hmk, bindE_event, Hwr. cbn [py_get py_contains].
    destruct Hnone as [Hm|Ha].
    + rewrite Hm, bindE_returns. cbn [truthy]. rewrite bindE_returns.
      reflexivity.
    + rewrite bindE_returns, Ha.
      destruct (truthy _); rewrite bindE_returns; reflexivity.
Qed.

Lemma item_without_media_witness :
  save_individual_tweet (fair_world [] (fun _ => ConnectionFailed))
    (JObj [("id", JStr "20"); ("text", JStr "hello")]) photo_includes "data"
  = (Returns 0,
     [EMkdir true ["data"; "individual_tweets"; "20"];
      EWriteJson ["data"; "individual_tweets"; "20"; "tweet.json"]
        (JObj [("id", JStr "20"); ("text", JStr "hello")])]).
Proof.
  refine (proj2 (item_without_media (fair_world [] (fun _ => ConnectionFailed))
                   [("id", JStr "20"); ("text", JStr "hello")] _ "20" "data"
                   eq_refl _) eq_refl eq_refl _).
  - discriminate.
  - right. reflexivity.
Defined.

(** ** Media resolver: keys and descriptors *)

Lemma find_media_absent descriptors media_key :
  Forall (fun d => exists fields,
                     d = JObj fields
                     /\ py_eq (match assoc "media_key" fields with
                               | Some k => k
                               | None => JNull
                               end) media_key = false) descriptors ->
  find_media descriptors media_key = Returns JNull.
Proof.
  induction 1 as [|d descriptors (fields & -> & Hk) _ IH]; [reflexivity|].
  cbn [find_media py_get bind]. rewrite Hk. exact IH.
Qed.

(** X14. A media key that no descriptor of the side table carries, and a
    descriptor whose type is none of [photo], [video], [animated_gif] (or
    is missing), are passed over: the turn of the loop makes no request
    and leaves every counter as it was. *)
Theorem unresolved_media_is_skipped (w : World) (dir : path)
    (descriptors : list json) (c : counters) (media_key : json) :
  (Forall (fun d => exists fields,
                      d = JObj fields
                      /\ py_eq (match assoc "media_key" fields with
                                | Some k => k
                                | None => JNull
                                end) media_key = false) descriptors ->
   resolve_media w dir (JArr descriptors) c media_key = (Returns c, []))
  /\ (forall fields,
         find_media descriptors media_key = Returns (JObj fields) ->
         assoc "type" fields = None
         \/ (exists t, assoc "type" fields = Some (JStr t)
                       /\ t <> "photo" /\ t <> "video" /\ t <> "animated_gif") ->
         resolve_media w dir (JArr descriptors) c media_key = (Returns c, [])).
Proof.
  split.
  - intros Habsent. unfold resolve_media. cbn [py_iter].
    rewrite bindE_returns, (find_media_absent _ _ Habsent), bindE_returns.
    reflexivity.
  - intros fields Hfind Htype. unfold resolve_media. cbn [py_iter].
    rewrite bindE_returns, Hfind, bindE_returns.
    destruct (truthy (JObj fields)); cbn [negb]; [|reflexivity].
    cbn [py_get]. destruct Htype as [->|(t & -> & Hp & Hv & Hg)].
    + rewrite bindE_returns. reflexivity.
    + rewrite bindE_returns. cbn [py_eq].
      destruct (String.eqb_spec t "photo"); [contradiction|].
      destruct (String.eqb_spec t "video"); [contradiction|].
      destruct (String.eqb_spec t "animated_gif"); [contradiction|].
      reflexivity.
Qed.

Lemma unresolved_media_is_skipped_witness :
  resolve_media (fair_world [] (fun _ => ConnectionFailed))
    ["data"; "individual_tweets"; "20"]
    (JArr [JObj [("media_key", JStr "3_1"); ("type", JStr "photo");
                 ("url", JStr "https://pbs.twimg.com/media/a.jpg")]])
    {| photo_count := 0; video_count := 0; gif_count := 0; media_count := 0 |}
    (JStr "9_9")
  = (Returns {| photo_count := 0; video_count := 0;
                gif_count := 0; media_count := 0 |}, []).
Proof.
  apply (proj1 (unresolved_media_is_skipped
                  (fair_world [] (fun _ => ConnectionFailed))
                  ["data"; "individual_tweets"; "20"] _ _ (JStr "9_9"))).
  repeat constructor. eexists. split; reflexivity.
Defined.

(** X15. For an animated image the URL of the first listed variant is
    the one requested, whatever the later variants are; the file is
    [gif_<n>.gif] for the next number of the item's animated images, and
    it is counted when the download succeeds.  With no variant at all
    the number is used up and nothing is requested. *)
Theorem animated_gif_takes_first_variant (w : World) (dir : path)
    (descriptors : list json) (c : counters) (media_key : json)
    (fields : list (string * json)) :
  find_media descriptors media_key = Returns (JObj fields) ->
  assoc "type" fields = Some (JStr "animated_gif") ->
  (forall first others u,
      assoc "variants" fields = Some (JArr (JObj first :: others)) ->
      assoc "url" first = Some (JStr u) ->
      u <> "" ->
      resolve_media w dir (JArr descriptors) c media_key
      = (Returns
           (if fst (download_media_file w (JStr u)
                      (dir ++ [(numbered "gif_" (S (gif_count c)) ++ ".gif")%string]))
            then {| photo_count := photo_count c;
                    video_count := video_count c;
                    gif_count := S (gif_count c);
                    media_count := S (media_count c) |}
            else {| photo_count := photo_count c;
                    video_count := video_count c;
                    gif_count := S (gif_count c);
                    media_count := media_count c |}),
         snd (download_media_file w (JStr u)
                (dir ++ [(numbered "gif_" (S (gif_count c)) ++ ".gif")%string]))))
  /\ (assoc "variants" fields = None
      \/ assoc "variants" fields = Some (JArr []) ->
      resolve_media w dir (JArr descriptors) c media_key
      = (Returns {| photo_count := photo_count c;
                    video_count := video_count c;
                    gif_count := S (gif_count c);
                    media_count := media_count c |}, [])).
Proof.
  intros Hfind Htype.
  assert (Ht : truthy (JObj fields) = true)
    by (destruct fields; [discriminate|reflexivity]).
  assert (Hstart : resolve_media w dir (JArr descriptors) c media_key
                   = bindE (lift (py_get (JObj fields) "variants" (JArr [])))
                       (fun variants =>
                          media_url <~ lift (if truthy variants
                                             then first <- py_first variants ;;
                                                  py_get first "url" (JStr "")
                                             else Returns (JStr "")) ;;
                          fetch_media w dir "animated_gif"
                            (numbered "gif_" (S (gif_count c))) media_url
                            {| photo_count := photo_count c;
                               video_count := video_count c;
                               gif_count := S (gif_count c);
                               media_count := media_count c |})).
  { unfold resolve_media. cbn [py_iter].
    rewrite bindE_returns, Hfind, bindE_returns, Ht. cbn [negb py_get].
    rewrite Htype, bindE_returns. reflexivity. }
  rewrite Hstart. cbn [py_get]. split.
  - intros first others u Hv Hu Hne. rewrite Hv, bindE_returns.
    cbn [truthy py_first bind py_get]. rewrite Hu, bindE_returns.
    unfold fetch_media. rewrite (truthy_string u Hne).
    change (get_media_extension "animated_gif" (JStr u)) with (Returns (A:=string) ".gif").
    rewrite bindE_returns. cbn [fst snd].
    destruct (fst (download_media_file w (JStr u) _)); reflexivity.
  - intros [Hv|Hv]; rewrite Hv, bindE_returns; cbn [truthy];
      rewrite bindE_returns; reflexivity.
Qed.

Lemma photo_extension_by_occurrence_aux u :
  exists extension, get_media_extension "photo" (JStr u) = Returns extension.
Proof.
  unfold get_media_extension. cbn [String.eqb Ascii.eqb Bool.eqb py_contains bind].
  destruct (str_in ".jpg" u); [eexists; reflexivity|].
  destruct (str_in ".jpeg" u); [eexists; reflexivity|].
  destruct (str_in ".png" u); [eexists; reflexivity|].
  destruct (str_in ".webp" u); eexists; reflexivity.
Qed.

(** X16. For a photo with a non-empty string URL that URL is requested
    as it is; the file is [photo_<n><ext>] for the next number of the
    item's photos and the extension of the URL, and it is counted when
    the download succeeds: a failed download is not counted and does not
    stop the loop.  A photo without a URL uses the number up and requests
    nothing. *)
Theorem photo_is_requested_as_is (w : World) (dir : path)
    (descriptors : list json) (c : counters) (media_key : json)
    (fields : list (string * json)) :
  find_media descriptors media_key = Returns (JObj fields) ->
  assoc "type" fields = Some (JStr "photo") ->
  (forall u,
      assoc "url" fields = Some (JStr u) ->
      u <> "" ->
      exists extension,
        get_media_extension "photo" (JStr u) = Returns extension
        /\ resolve_media w dir (JArr descriptors) c media_key
           = (Returns
                (if fst (download_media_file w (JStr u)
                           (dir ++ [(numbered "photo_" (S (photo_count c))
                                       ++ extension)%string]))
                 then {| photo_count := S (photo_count c);
                         video_count := video_count c;
                         gif_count := gif_count c;
                         media_count := S (media_count c) |}
                 else {| photo_count := S (photo_count c);
                         video_count := video_count c;
                         gif_count := gif_count c;
                         media_count := media_count c |}),
              snd (download_media_file w (JStr u)
                     (dir ++ [(numbered "photo_" (S (photo_count c))
                                 ++ extension)%string]))))
  /\ (assoc "url" fields = None ->
      resolve_media w dir (JArr descriptors) c media_key
      = (Returns {| photo_count := S (photo_count c);
                    video_count := video_count c;
                    gif_count := gif_count c;
                    media_count := media_count c |}, [])).
Proof.
  intros Hfind Htype.
  assert (Ht : truthy (JObj fields) = true)
    by (destruct fields; [discriminate|reflexivity]).
  assert (Hstart : resolve_media w dir (JArr descriptors) c media_key
                   = bindE (lift (py_get (JObj fields) "url" (JStr "")))
                       (fun media_url =>
                          fetch_media w dir "photo"
                            (numbered "photo_" (S (photo_count c))) media_url
                            {| photo_count := S (photo_count c);
                               video_count := video_count c;
                               gif_count := gif_count c;
                               media_count := media_count c |})).
  { unfold resolve_media. cbn [py_iter].
    rewrite bindE_returns, Hfind, bindE_returns, Ht. cbn [negb py_get].
    rewrite Htype, bindE_returns. reflexivity. }
  rewrite Hstart. cbn [py_get]. split.
  - intros u Hu Hne. rewrite Hu, bindE_returns.
    destruct (photo_extension_by_occurrence_aux u) as [extension Hext].
    exists extension. split; [exact Hext|].
    unfold fetch_media. rewrite (truthy_string u Hne), Hext, bindE_returns.
    cbn [fst snd].
    destruct (fst (download_media_file w (JStr u) _)); reflexivity.
  - intros ->. rewrite bindE_returns. reflexivity.
Qed.

(** ** Persistence of the responses *)

Lemma confined_persists dir ev : confined dir ev -> persists ev.
Proof. destruct ev; cbn; auto. Qed.

Lemma save_individual_tweet_persists w tweet_data includes_data output_dir :
  Forall persists (snd (save_individual_tweet w tweet_data includes_data output_dir)).
Proof.
  destruct (save_individual_tweet_shape w tweet_data includes_data output_dir)
    as [[r E]|(id & _ & _ & [[E _]|[(r & E & _)|(media_data & keys & E)]])];
    rewrite E; cbn [snd app]; repeat constructor.
  apply for_each_forall. intros c key.
  eapply Forall_impl; [apply confined_persists|apply resolve_media_confined].
Qed.

Lemma save_response_items_persists w output_dir announce totals response_data :
  Forall persists
    (snd (save_response_items w output_dir announce totals response_data)).
Proof.
  unfold save_response_items.
  destruct (py_get response_data "data" (JArr [])) as [tweets|e];
    [rewrite bindE_returns|rewrite bindE_raises; constructor].
  destruct (py_get response_data "includes" (JObj [])) as [includes|e];
    [rewrite bindE_returns|rewrite bindE_raises; constructor].
  destruct (py_iter tweets) as [items|e];
    [rewrite bindE_returns|rewrite bindE_raises; constructor].
  apply for_each_forall. intros tot tweet.
  match goal with
  | |- context [bindE (lift ?o) _] =>
      destruct o; [rewrite bindE_returns|rewrite bindE_raises; constructor]
  end.
  rewrite snd_bindE. apply Forall_app. split.
  - apply save_individual_tweet_persists.
  - destruct (fst (save_individual_tweet w tweet includes output_dir));
      constructor.
Qed.

Lemma persists_no_request t : Forall persists t -> api_requests t = [].
Proof.
  induction 1 as [|ev t Hev _ IH]; [reflexivity|].
  destruct ev; cbn in Hev; try contradiction; exact IH.
Qed.

(** X17. [save_tweets_data] writes the document of all the responses
    before it saves any item, so the document is on disk whatever
    happens to the items; when the directory cannot be made it writes
    nothing; when it returns, it has written the same document a second
    time at the end; and without individual saving its events are the
    directory, the document, the directory and the document again. *)
Theorem save_tweets_data_writes (w : World) (tweets_data : list json)
    (output_dir : string) (save_individual : bool) :
  (fs_mkdir w false [output_dir] = false ->
   save_tweets_data w tweets_data output_dir save_individual
   = (Raises OSError, [EMkdir false [output_dir]]))
  /\ (fs_mkdir w false [output_dir] = true ->
      fs_write w [output_dir; "tweets_data.json"] = true ->
      exists items,
        Forall persists items
        /\ (save_individual = false -> items = [])
        /\ ((fst (save_tweets_data w tweets_data output_dir save_individual)
             = Returns tt
             /\ snd (save_tweets_data w tweets_data output_dir save_individual)
                = [EMkdir false [output_dir];
                   EWriteJson [output_dir; "tweets_data.json"] (JArr tweets_data)]
                  ++ items
                  ++ [EMkdir false [output_dir];
                      EWriteJson [output_dir; "tweets_data.json"]
                        (JArr tweets_data)])
            \/ (exists e,
                   save_tweets_data w tweets_data output_dir save_individual
                   = (Raises e,
                      [EMkdir false [output_dir];
                       EWriteJson [output_dir; "tweets_data.json"]
                         (JArr tweets_data)] ++ items)))).
Proof.
  unfold save_tweets_data, mkdir, write_file. cbn [app]. split.
  - intros Hmk. rewrite bindE_event, Hmk. reflexivity.
  - intros Hmk Hwr. rewrite bindE_event, Hmk, bindE_event, Hwr.
    set (loop := if save_individual
                 then for_each (save_response_items w output_dir false)
                        tweets_data (0, 0)
                 else ret (0, 0)).
    assert (Hloop : Forall persists (snd loop)).
    { subst loop. destruct save_individual; [|constructor].
      apply for_each_forall. intros tot response.
      apply save_response_items_persists. }
    assert (Hnone : save_individual = false -> snd loop = [])
      by (intros ->; reflexivity).
    clearbody loop. destruct loop as [[totals|e] items]. all: cbn [fst snd] in *.
    all: exists items; split; [exact Hloop|]; split; [exact Hnone|].
    + left. unfold bindE. cbn [fst snd]. split; reflexivity.
    + right. exists e. reflexivity.
Qed.

Lemma save_tweets_data_writes_witness :
  save_tweets_data no_file_world [one_item "1"] "data" false
  = (Returns tt,
     [EMkdir false ["data"];
      EWriteJson ["data"; "tweets_data.json"] (JArr [one_item "1"]);
      EMkdir false ["data"];
      EWriteJson ["data"; "tweets_data.json"] (JArr [one_item "1"])]).
Proof.
  destruct (proj2 (save_tweets_data_writes no_file_world [one_item "1"] "data"
                     false) eq_refl eq_refl)
    as (items & _ & Hnone & [[Hfst Hsnd]|[e He]]).
  - rewrite (surjective_pairing (save_tweets_data _ _ _ _)), Hfst, Hsnd.
    rewrite (Hnone eq_refl). reflexivity.
  - vm_compute in He. discriminate.
Defined.

(** ** Batch fetcher: where results and failure records come from *)

Section FetcherFacts.
Variable w : World.
Variables bearer_token output_dir : string.
Variable is_free_plan : bool.
Variable total : nat.

(** What one turn of the loop adds: at most one result, which is then the
    parsed body of the reply and has a [data] key, at most one failure
    record, which is then the batch itself, and never nothing. *)
Lemma fetch_batch_delta st i chunk :
  let st' := fst (fetch_batch w bearer_token output_dir is_free_plan total
                    st i chunk) in
  (all_tweets_data st' = all_tweets_data st
   \/ exists doc,
        all_tweets_data st' = all_tweets_data st ++ [doc]
        /\ x_api w i bearer_token chunk = Body doc
        /\ has_data doc = Returns true)
  /\ (failed_chunks st' = failed_chunks st
      \/ failed_chunks st' = failed_chunks st ++ [(i, chunk)])
  /\ (all_tweets_data st' = all_tweets_data st ->
      failed_chunks st' = failed_chunks st ++ [(i, chunk)]).
Proof.
  assert (Hgrow : forall (l : list json) x, l ++ [x] <> l).
  { intros l x H. apply (f_equal (@length json)) in H.
    rewrite length_app in H. cbn in H. lia. }
  unfold fetch_batch, get_posts_from_x_api, bindE. cbn [fst snd].
  destruct (x_api w i bearer_token chunk) as [| |e|doc]; cbn [ret raise fst snd].
  1, 2: cbn; auto.
  - destruct e; cbn; auto.
  - destruct (has_data doc) as [[|]|e] eqn:Hd; cbn [fst]; auto.
    destruct (data_count doc); cbn [fst add_failed add_result all_tweets_data
                                      failed_chunks].
    + split; [right; now exists doc|]. split; [now left|].
      intros H. now apply Hgrow in H.
    + split; [right; now exists doc|]. split; [now right|auto].
Qed.

Lemma fetch_batches_failed_origin chunks i0 st i chunk :
  In (i, chunk)
    (failed_chunks (fst (fetch_batches w bearer_token output_dir is_free_plan
                           total i0 chunks st))) ->
  In (i, chunk) (failed_chunks st)
  \/ (i0 <= i /\ nth_error chunks (i - i0) = Some chunk).
Proof.
  revert i0 st. induction chunks as [|c chunks IH]; intros i0 st Hin.
  - now left.
  - cbn [fetch_batches fst] in Hin. apply IH in Hin as [Hin|[Hle Hnth]].
    + destruct (fetch_batch_delta st i0 c) as (_ & [E|E] & _);
        cbv zeta in E; rewrite E in Hin; [now left|].
      apply in_app_or in Hin as [Hin|[[= <- <-]|[]]]; [now left|].
      right. split; [lia|]. now rewrite Nat.sub_diag.
    + right. split; [lia|].
      replace (i - i0) with (S (i - S i0)) by lia. exact Hnth.
Qed.

Lemma fetch_batches_result_origin chunks i0 st doc :
  In doc
    (all_tweets_data (fst (fetch_batches w bearer_token output_dir is_free_plan
                             total i0 chunks st))) ->
  In doc (all_tweets_data st)
  \/ exists k chunk,
       nth_error chunks k = Some chunk
       /\ x_api w (i0 + k) bearer_token chunk = Body doc
       /\ has_data doc = Returns true.
Proof.
  revert i0 st. induction chunks as [|c chunks IH]; intros i0 st Hin.
  - now left.
  - cbn [fetch_batches fst] in Hin. apply IH in Hin as [Hin|(k & chunk & Hk & H)].
    + destruct (fetch_batch_delta st i0 c) as ([E|(d & E & Hd)] & _);
        cbv zeta in E; rewrite E in Hin; [now left|].
      apply in_app_or in Hin as [Hin|[<-|[]]]; [now left|].
      right. exists 0, c. now rewrite Nat.add_0_r.
    + right. exists (S k), chunk. now rewrite Nat.add_succ_r.
Qed.

Lemma fetch_batches_accounting chunks i0 st :
  let st' := fst (fetch_batches w bearer_token output_dir is_free_plan total
                    i0 chunks st) in
  length (all_tweets_data st) <= length (all_tweets_data st')
  /\ length (failed_chunks st) <= length (failed_chunks st')
  /\ length (all_tweets_data st') <= length (all_tweets_data st) + length chunks
  /\ length (failed_chunks st') <= length (failed_chunks st) + length chunks
  /\ length (all_tweets_data st) + length (failed_chunks st) + length chunks
     <= length (all_tweets_data st') + length (failed_chunks st').
Proof.
  revert i0 st. induction chunks as [|c chunks IH]; intros i0 st; cbv zeta.
  - cbn. lia.
  - cbn [fetch_batches fst length].
    specialize (IH (S i0)
                  (fst (fetch_batch w bearer_token output_dir is_free_plan total
                          st i0 c))).
    cbv zeta in IH.
    destruct (fetch_batch_delta st i0 c) as (Ha & Hf & Hboth). cbv zeta in *.
    assert (length (all_tweets_data
                      (fst (fetch_batch w bearer_token output_dir is_free_plan
                              total st i0 c)))
            + length (failed_chunks
                        (fst (fetch_batch w bearer_token output_dir is_free_plan
                                total st i0 c)))
            >= S (length (all_tweets_data st) + length (failed_chunks st))
            /\ length (all_tweets_data
                         (fst (fetch_batch w bearer_token output_dir is_free_plan
                                 total st i0 c)))
               <= S (length (all_tweets_data st))
            /\ length (all_tweets_data st)
               <= length (all_tweets_data
                            (fst (fetch_batch w bearer_token output_dir
                                    is_free_plan total st i0 c)))
            /\ length (failed_chunks
                         (fst (fetch_batch w bearer_token output_dir is_free_plan
                                 total st i0 c)))
               <= S (length (failed_chunks st))
            /\ length (failed_chunks st)
               <= length (failed_chunks
                            (fst (fetch_batch w bearer_token output_dir
                                    is_free_plan total st i0 c)))) as Hstep.
    { destruct Ha as [Ea|(d & Ea & _)].
      - rewrite (Hboth Ea), Ea, length_app. cbn. lia.
      - destruct Hf as [Ef|Ef]; rewrite Ea, Ef, !length_app; cbn; lia. }
    lia.
Qed.

(** X18. Every record of the failure list names a batch of the run: its
    number is the position of the batch, counted from 1, and its
    identifiers are those of that batch. *)
Theorem failure_records_name_batches (chunks : list (list string))
    (i : nat) (chunk : list string) :
  In (i, chunk)
    (failed_chunks (fst (fetch_batches w bearer_token output_dir is_free_plan
                           total 1 chunks start))) ->
  1 <= i /\ nth_error chunks (i - 1) = Some chunk.
Proof.
  intros Hin. apply fetch_batches_failed_origin in Hin as [[]|H]. exact H.
Qed.

(** X19. Every response in the results is the parsed body of the reply to
    one of the batches, and it is truthy with a [data] key: no result
    comes from a transport error, an error status or a body that did not
    parse. *)
Theorem results_are_parsed_bodies (chunks : list (list string)) (doc : json) :
  In doc
    (all_tweets_data (fst (fetch_batches w bearer_token output_dir is_free_plan
                             total 1 chunks start))) ->
  exists k chunk,
    nth_error chunks k = Some chunk
    /\ x_api w (S k) bearer_token chunk = Body doc
    /\ has_data doc = Returns true.
Proof.
  intros Hin. apply fetch_batches_result_origin in Hin as [[]|H]. exact H.
Qed.

(** X20. No batch is lost: when the loop ends, the results and the
    failure records are each at most as many as the batches, and
    together at least as many. *)
Theorem every_batch_is_accounted_for (chunks : list (list string)) :
  let st := fst (fetch_batches w bearer_token output_dir is_free_plan total
                   1 chunks start) in
  length (all_tweets_data st) <= length chunks
  /\ length (failed_chunks st) <= length chunks
  /\ length chunks <= length (all_tweets_data st) + length (failed_chunks st).
Proof.
  pose proof (fetch_batches_accounting chunks 1 start) as H.
  cbv zeta in *. cbn [start all_tweets_data failed_chunks length] in H. lia.
Qed.
End FetcherFacts.

Lemma failure_records_name_batches_witness :
  1 <= 2 /\ nth_error [["1"]; ["2"]; ["3"]] (2 - 1) = Some ["2"].
Proof.
  apply (failure_records_name_batches (fair_world [] second_fails) "token"
           "data" true 3 [["1"]; ["2"]; ["3"]] 2 ["2"]).
  vm_compute. left. reflexivity.
Defined.

Lemma results_are_parsed_bodies_witness :
  exists k chunk,
    nth_error [["1"]; ["2"]; ["3"]] k = Some chunk
    /\ x_api (fair_world [] second_fails) (S k) "token" chunk
       = Body (one_item "1")
    /\ has_data (one_item "1") = Returns true.
Proof.
  apply (results_are_parsed_bodies (fair_world [] second_fails) "token" "data"
           true 3 [["1"]; ["2"]; ["3"]] (one_item "1")).
  vm_compute. left. reflexivity.
Defined.

(** ** The whole fetch *)

Lemma save_tweets_data_persists w tweets_data output_dir save_individual :
  Forall persists (snd (save_tweets_data w tweets_data output_dir save_individual)).
Proof.
  unfold save_tweets_data, mkdir, write_file.
  rewrite snd_bindE. apply Forall_app. split; [repeat constructor|].
  cbn [fst]. destruct (fs_mkdir w false [output_dir]); [|constructor].
  rewrite snd_bindE. apply Forall_app. split; [repeat constructor|].
  cbn [fst]. destruct (fs_write w _); [|constructor].
  rewrite snd_bindE. apply Forall_app. split.
  - destruct save_individual; [|constructor].
    apply for_each_forall. intros tot response.
    apply save_response_items_persists.
  - match goal with
    | |- context [match ?o with Returns _ => _ | Raises _ => _ end] =>
        destruct o; [|constructor]
    end.
    rewrite snd_bindE. apply Forall_app. split; [repeat constructor|].
    cbn [fst]. destruct (fs_mkdir w false [output_dir]); repeat constructor.
Qed.

Lemma fetch_all_tweets_trace w tweet_ids bearer_token output_dir is_free_plan
    save_individual :
  exists rest,
    Forall persists rest
    /\ snd (fetch_all_tweets w tweet_ids bearer_token output_dir is_free_plan
              save_individual)
       = snd (fetch_batches w bearer_token output_dir is_free_plan
                (length (map (fun i => slice (sorted tweet_ids) i (i + 100))
                           (range_from (length (sorted tweet_ids)) 0
                              (length (sorted tweet_ids)) 100)))
                1
                (map (fun i => slice (sorted tweet_ids) i (i + 100))
                   (range_from (length (sorted tweet_ids)) 0
                      (length (sorted tweet_ids)) 100))
                start)
         ++ rest.
Proof.
  pose proof (chunk_list_unfold (sorted tweet_ids) 100 ltac:(lia)) as E.
  change (Z.of_nat 100) with 100%Z in E.
  unfold fetch_all_tweets. rewrite E, bindE_returns, snd_bindE. cbn [fst snd].
  eexists. split; [|reflexivity].
  destruct (all_tweets_data _) as [|doc all]; [constructor|].
  rewrite snd_bindE. apply Forall_app. split; [apply save_tweets_data_persists|].
  destruct (fst (save_tweets_data _ _ _ _)); [|constructor].
  rewrite snd_bindE. cbn [lift fst snd app].
  destruct (total_count (doc :: all)); constructor.
Qed.

(** X21. Whatever the replies, a fetch requests every identifier of the
    set exactly once: the identifier lists of its API requests, put end
    to end, are the identifiers in ascending order; each request carries
    between 1 and 100 identifiers; and for [n] identifiers there are
    [n / 100] requests, plus one when 100 does not divide [n]. *)
Theorem fetch_requests_cover_the_ids (w : World) (tweet_ids : list string)
    (bearer_token output_dir : string) (is_free_plan save_individual : bool) :
  let requests :=
    api_requests (snd (fetch_all_tweets w tweet_ids bearer_token output_dir
                         is_free_plan save_individual)) in
  concat requests = sorted tweet_ids
  /\ Permutation tweet_ids (concat requests)
  /\ Forall (fun ids => 1 <= length ids <= 100) requests
  /\ length requests
     = length tweet_ids / 100 + (if length tweet_ids mod 100 =? 0 then 0 else 1).
Proof.
  cbv zeta.
  destruct (fetch_all_tweets_trace w tweet_ids bearer_token output_dir
              is_free_plan save_individual) as (rest & Hrest & ->).
  rewrite api_requests_app, fetch_batches_requests,
    (persists_no_request rest Hrest), app_nil_r.
  assert (Hconcat : concat (map (fun i => slice (sorted tweet_ids) i (i + 100))
                              (range_from (length (sorted tweet_ids)) 0
                                 (length (sorted tweet_ids)) 100))
                    = sorted tweet_ids).
  { rewrite (range_from_concat (sorted tweet_ids) 100) by lia. reflexivity. }
  split; [exact Hconcat|]. split; [rewrite Hconcat; apply sorted_perm|].
  split.
  - pose proof (chunks_bounded (sorted tweet_ids) 100 ltac:(lia)
                  (range_from (length (sorted tweet_ids)) 0
                     (length (sorted tweet_ids)) 100)) as Hle.
    pose proof (chunks_nonempty (sorted tweet_ids) 100 ltac:(lia) _
                  (range_from_below (sorted tweet_ids) 100
                     (length (sorted tweet_ids)) 0)) as Hne.
    rewrite Forall_forall in *. intros ids Hids.
    specialize (Hle ids Hids). specialize (Hne ids Hids).
    destruct ids; [congruence|]. cbn [length] in *. lia.
  - rewrite <- (length_map (@length string)), chunk_lengths,
      (range_chunk_lengths (sorted tweet_ids) 100) by lia.
    rewrite Nat.sub_0_r, <- (Permutation_length (sorted_perm tweet_ids)).
    rewrite length_app, repeat_length.
    destruct (length tweet_ids mod 100 =? 0); reflexivity.
Qed.

Lemma all_failed_no_result w bearer_token output_dir is_free_plan total chunks i st :
  (forall n ids,
      x_api w n bearer_token ids = ConnectionFailed
      \/ exists status, x_api w n bearer_token ids = ErrorStatus status) ->
  all_tweets_data (fst (fetch_batches w bearer_token output_dir is_free_plan
                          total i chunks st))
  = all_tweets_data st.
Proof.
  intros Hfail. revert i st. induction chunks as [|c chunks IH]; intros i st.
  - reflexivity.
  - cbn [fetch_batches fst]. rewrite IH.
    now rewrite (fetch_batch_failed_reply w bearer_token output_dir is_free_plan
                   total st i c (Hfail i c)).
Qed.

Lemma failed_reply_completes w bearer_token output_dir i chunk :
  x_api w i bearer_token chunk = ConnectionFailed
  \/ (exists status, x_api w i bearer_token chunk = ErrorStatus status) ->
  completes w bearer_token output_dir i chunk.
Proof.
  intros H. exists (JObj []), false.
  unfold get_posts_from_x_api, bindE. cbn [fst snd].
  destruct H as [->|[status ->]]; repeat split; discriminate.
Qed.

Lemma policy_pause_fetches is_free_plan total :
  Forall fetches (policy_pause is_free_plan total).
Proof.
  unfold policy_pause. destruct is_free_plan, (15 <? total);
    repeat constructor.
Qed.

Lemma paced_fetches pause chunks :
  Forall fetches pause -> Forall fetches (paced pause chunks).
Proof.
  intros Hpause. induction chunks as [|c chunks IH]; [constructor|].
  cbn [paced]. constructor; [exact I|].
  destruct chunks; [constructor|]. apply Forall_app. split; assumption.
Qed.

(** X22. When every request meets a transport error or an error status
    the fetch still comes to its end and persists nothing: it makes no
    directory and writes no file, and its events are the requests of the
    batches, in order, with the pause of the plan between two
    consecutive ones. *)
Theorem total_failure_writes_nothing (w : World) (tweet_ids : list string)
    (bearer_token output_dir : string) (is_free_plan save_individual : bool) :
  (forall n ids,
      x_api w n bearer_token ids = ConnectionFailed
      \/ exists status, x_api w n bearer_token ids = ErrorStatus status) ->
  exists chunks,
    chunk_list (sorted tweet_ids) 100 = Returns chunks
    /\ fetch_all_tweets w tweet_ids bearer_token output_dir is_free_plan
         save_individual
       = (Returns tt, paced (policy_pause is_free_plan (length chunks)) chunks)
    /\ Forall fetches
         (snd (fetch_all_tweets w tweet_ids bearer_token output_dir is_free_plan
                 save_individual)).
Proof.
  intros Hfail.
  pose proof (chunk_list_unfold (sorted tweet_ids) 100 ltac:(lia)) as E.
  change (Z.of_nat 100) with 100%Z in E.
  set (chunks := map (fun i => slice (sorted tweet_ids) i (i + 100))
                   (range_from (length (sorted tweet_ids)) 0
                      (length (sorted tweet_ids)) 100)) in E.
  exists chunks. split; [exact E|].
  assert (Hrun : fetch_all_tweets w tweet_ids bearer_token output_dir is_free_plan
                   save_individual
                 = (Returns tt,
                    paced (policy_pause is_free_plan (length chunks)) chunks)).
  { unfold fetch_all_tweets. rewrite E, bindE_returns.
    rewrite (all_failed_no_result w bearer_token output_dir is_free_plan _ _ 1
               start Hfail).
    cbn [start all_tweets_data]. unfold bindE, ret. cbn [fst snd].
    rewrite app_nil_r. f_equal.
    apply fetch_batches_paced; [lia|].
    intros k chunk _. now apply failed_reply_completes. }
  split; [exact Hrun|]. rewrite Hrun. cbn [snd].
  apply paced_fetches, policy_pause_fetches.
Qed.

Lemma total_failure_writes_nothing_witness :
  fetch_all_tweets (fair_world [] (fun _ => ConnectionFailed)) ["30"; "4"]
    "token" "data" true true
  = (Returns tt, [EApiGet ["30"; "4"]]).
Proof.
  destruct (total_failure_writes_nothing
              (fair_world [] (fun _ => ConnectionFailed)) ["30"; "4"]
              "token" "data" true true) as (chunks & E & Hrun & _).
  - intros n ids. left. reflexivity.
  - vm_compute in E. injection E as <-. exact Hrun.
Defined.

(** ** Command entry point: what a run leaves behind *)


Section MainFacts.
Variables is_word is_digit : ascii -> bool.


(** X24. In extract mode nothing is written and nothing requested when
    the input file is missing, when reading it raises, or when it holds
    no identifier.  Otherwise the identifier list is saved first: a run
    without the fetch option does no more than that, and a run with the
    fetch option but without a credential ends with status 1 after the
    list has been saved. *)
Theorem extract_mode_effects (w : World) (args : Args) :
  reprocess_mode args = false ->
  let collected :=
    extract_tweet_ids_from_csv is_word is_digit w (input_csv args) (column args) in
  (path_exists w [input_csv args] = false ->
   main is_word is_digit w args = (1%Z, []))
  /\ (path_exists w [input_csv args] = true ->
      (forall e, collected = Raises e ->
                 main is_word is_digit w args = (1%Z, []))
      /\ (collected = Returns [] -> main is_word is_digit w args = (0%Z, []))
      /\ (forall tweet_ids,
             collected = Returns tweet_ids -> tweet_ids <> [] ->
             (fetch_tweets args = false ->
              main is_word is_digit w args
              = (match fst (save_tweet_ids w tweet_ids (output_dir args)) with
                 | Returns _ => 0%Z
                 | Raises _ => 1%Z
                 end,
                 snd (save_tweet_ids w tweet_ids (output_dir args))))
             /\ (fetch_tweets args = true -> credential w args = None ->
                 main is_word is_digit w args
                 = (1%Z, snd (save_tweet_ids w tweet_ids (output_dir args)))))).
Proof.
  intros Hmode collected. subst collected.
  rewrite (main_in_extract_mode is_word is_digit w args Hmode).
  unfold extract_mode. split.
  - intros ->. reflexivity.
  - intros ->. cbn [negb]. unfold main_body. split; [|split].
    + intros e ->. reflexivity.
    + intros ->. reflexivity.
    + intros tweet_ids -> Hne. rewrite bindE_returns.
      destruct tweet_ids as [|id ids]; [congruence|].
      destruct (save_tweet_ids w (id :: ids) (output_dir args)) as [[[]|e] t].
      all: split; [intros ->|intros -> ->]; unfold bindE, ret; cbn [fst snd];
        rewrite ?app_nil_r; reflexivity.
Qed.
End MainFacts.


Lemma extract_mode_effects_witness :
  main ascii_word ascii_digit
    (fair_world [["url"]; ["https://x.com/u/status/7"]] (fun _ => ConnectionFailed))
    (extract_args "in.csv" true None)
  = (1%Z,
     [EMkdir false ["data"];
      EWriteCsv ["data"; "tweet_ids.csv"] [["tweet_id"]; ["7"]]]).
Proof.
  destruct (extract_mode_effects ascii_word ascii_digit
              (fair_world [["url"]; ["https://x.com/u/status/7"]]
                 (fun _ => ConnectionFailed))
              (extract_args "in.csv" true None) eq_refl) as [_ H].
  destruct (H eq_refl) as (_ & _ & H1).
  destruct (H1 ["7"] eq_refl ltac:(discriminate)) as [_ H2].
  rewrite (H2 eq_refl eq_refl). reflexivity.
Defined.

(** ** Witnesses of the resolver and of the request *)

Lemma api_call_outcomes_witness :
  get_posts_from_x_api (fair_world [] second_fails) 2 ["2"] "token" "data"
  = (Returns (JObj []), [EApiGet ["2"]]).
Proof.
  destruct (api_call_outcomes (fair_world [] second_fails) 2 ["2"] "token" "data")
    as (Htrace & _ & _ & _ & Hempty).
  rewrite (surjective_pairing (get_posts_from_x_api _ _ _ _ _)), Htrace, Hempty.
  - reflexivity.
  - intros doc. discriminate.
  - intros e. discriminate.
Defined.

Lemma animated_gif_takes_first_variant_witness :
  resolve_media (fair_world [] (fun _ => ConnectionFailed))
    ["data"; "individual_tweets"; "20"]
    (JArr [JObj [("media_key", JStr "16_1"); ("type", JStr "animated_gif");
                 ("variants",
                  JArr [JObj [("bit_rate", JNum 0);
                              ("url", JStr "https://video.twimg.com/a.mp4")];
                        JNum 7])]])
    {| photo_count := 0; video_count := 0; gif_count := 0; media_count := 0 |}
    (JStr "16_1")
  = (Returns {| photo_count := 0; video_count := 0;
                gif_count := 1; media_count := 1 |},
     [EMediaGet (JStr "https://video.twimg.com/a.mp4");
      EMkdir true ["data"; "individual_tweets"; "20"];
      EWriteMedia ["data"; "individual_tweets"; "20"; "gif_1.gif"]
        (JStr "https://video.twimg.com/a.mp4")]).
Proof.
  rewrite (proj1 (animated_gif_takes_first_variant
                    (fair_world [] (fun _ => ConnectionFailed))
                    ["data"; "individual_tweets"; "20"]
                    [JObj [("media_key", JStr "16_1");
                           ("type", JStr "animated_gif");
                           ("variants",
                            JArr [JObj [("bit_rate", JNum 0);
                                        ("url", JStr "https://video.twimg.com/a.mp4")];
                                  JNum 7])]]
                    {| photo_count := 0; video_count := 0;
                       gif_count := 0; media_count := 0 |}
                    (JStr "16_1")
                    [("media_key", JStr "16_1"); ("type", JStr "animated_gif");
                     ("variants",
                      JArr [JObj [("bit_rate", JNum 0);
                                  ("url", JStr "https://video.twimg.com/a.mp4")];
                            JNum 7])]
                    eq_refl eq_refl)
             [("bit_rate", JNum 0); ("url", JStr "https://video.twimg.com/a.mp4")]
             [JNum 7] "https://video.twimg.com/a.mp4" eq_refl eq_refl
             ltac:(discriminate)).
  reflexivity.
Defined.

Lemma photo_is_requested_as_is_witness :
  resolve_media (fair_world [] (fun _ => ConnectionFailed))
    ["data"; "individual_tweets"; "20"]
    (JArr [JObj [("media_key", JStr "3_1"); ("type", JStr "photo")]])
    {| photo_count := 1; video_count := 0; gif_count := 0; media_count := 1 |}
    (JStr "3_1")
  = (Returns {| photo_count := 2; video_count := 0;
                gif_count := 0; media_count := 1 |}, []).
Proof.
  apply (proj2 (photo_is_requested_as_is
                  (fair_world [] (fun _ => ConnectionFailed))
                  ["data"; "individual_tweets"; "20"]
                  [JObj [("media_key", JStr "3_1"); ("type", JStr "photo")]]
                  {| photo_count := 1; video_count := 0;
                     gif_count := 0; media_count := 1 |}
                  (JStr "3_1")
                  [("media_key", JStr "3_1"); ("type", JStr "photo")]
                  eq_refl eq_refl)).
  reflexivity.
Defined.

(** ** Fetch, then persist; persist, then reprocess *)

Lemma fetch_batches_fetches w bearer_token output_dir is_free_plan total i chunks st :
  Forall fetches
    (snd (fetch_batches w bearer_token output_dir is_free_plan total i chunks st)).
Proof.
  revert i st. induction chunks as [|c chunks IH]; intros i st.
  - constructor.
  - cbn [fetch_batches snd]. apply Forall_app. split; [|apply IH].
    assert (Hwait : Forall fetches (batch_wait is_free_plan i total)).
    { unfold batch_wait.
      destruct (i <? total), is_free_plan, (15 <? total); repeat constructor. }
    unfold fetch_batch. rewrite request_trace.
    destruct (fst (get_posts_from_x_api w i c bearer_token output_dir))
      as [doc|e]; [|repeat constructor].
    destruct (has_data doc) as [[|]|e]; cbn [snd].
    + destruct (data_count doc); cbn [snd]; repeat constructor; exact Hwait.
    + repeat constructor; exact Hwait.
    + repeat constructor.
Qed.

(** X25. A fetch persists nothing until the last batch has been
    requested: its events are first API requests and pauses only, then
    persistence events only. *)
Theorem fetch_persists_after_the_last_request (w : World)
    (tweet_ids : list string) (bearer_token output_dir : string)
    (is_free_plan save_individual : bool) :
  exists requests persisted,
    snd (fetch_all_tweets w tweet_ids bearer_token output_dir is_free_plan
           save_individual)
    = requests ++ persisted
    /\ Forall fetches requests
    /\ Forall persists persisted.
Proof.
  destruct (fetch_all_tweets_trace w tweet_ids bearer_token output_dir
              is_free_plan save_individual) as (rest & Hrest & E).
  eexists. exists rest. split; [exact E|]. split; [|exact Hrest].
  apply fetch_batches_fetches.
Qed.

Lemma bindE_ext {A B} (m : eff A) (k1 k2 : A -> eff B) :
  (forall a, k1 a = k2 a) -> bindE m k1 = bindE m k2.
Proof. intros H. unfold bindE. destruct (fst m); [now rewrite H|reflexivity]. Qed.

Lemma for_each_ext {S A} (f g : S -> A -> eff S) l s :
  (forall s x, f s x = g s x) -> for_each f l s = for_each g l s.
Proof.
  intros H. revert s. induction l as [|x l IH]; intros s; [reflexivity|].
  cbn [for_each]. rewrite H. now apply bindE_ext.
Qed.

(** The message that names the item before it is saved changes nothing:
    when the lookup of its identifier raises, saving the item raises the
    same exception at its first step. *)
Lemma save_response_items_silent w output_dir totals response_data :
  save_response_items w output_dir true totals response_data
  = save_response_items w output_dir false totals response_data.
Proof.
  unfold save_response_items.
  apply bindE_ext. intros tweets. apply bindE_ext. intros includes.
  apply bindE_ext. intros items. apply for_each_ext. intros tot tweet.
  rewrite (bindE_returns JNull).
  destruct (py_get tweet "id" JNull) as [tweet_id|e] eqn:Hid;
    [now rewrite bindE_returns|].
  rewrite bindE_raises. unfold save_individual_tweet.
  rewrite Hid, bindE_raises. reflexivity.
Qed.

(** X26. Reprocessing replays the saving of the items: when the document
    read back is the list of responses that [save_tweets_data] was given,
    the events of reprocess mode are exactly the events that
    [save_tweets_data], with individual saving, performed between its
    first write of the document and the end of its loop over the items,
    in the same order and with the same outcome for each item. *)
Theorem reprocess_replays_item_saving (w : World) (tweets_data : list json)
    (json_file output_dir : string) :
  path_exists w [json_file] = true ->
  read_json w [json_file] = Returns (JArr tweets_data) ->
  fs_mkdir w false [output_dir] = true ->
  fs_write w [output_dir; "tweets_data.json"] = true ->
  exists closing,
    snd (save_tweets_data w tweets_data output_dir true)
    = [EMkdir false [output_dir];
       EWriteJson [output_dir; "tweets_data.json"] (JArr tweets_data)]
      ++ process_existing_tweets_data w json_file output_dir true
      ++ closing
    /\ (closing = []
        \/ closing = [EMkdir false [output_dir];
                      EWriteJson [output_dir; "tweets_data.json"]
                        (JArr tweets_data)]).
Proof.
  intros Hexists Hread Hmk Hwr.
  assert (Hreplay : process_existing_tweets_data w json_file output_dir true
                    = snd (for_each (save_response_items w output_dir false)
                             tweets_data (0, 0))).
  { unfold process_existing_tweets_data, reprocess.
    rewrite Hexists, Hread. cbn [negb]. rewrite bindE_returns.
    cbn [py_iter]. rewrite bindE_returns, snd_bindE.
    rewrite (for_each_ext (save_response_items w output_dir true)
               (save_response_items w output_dir false))
      by (intros; apply save_response_items_silent).
    destruct (fst (for_each _ tweets_data _)); cbn [ret snd];
      now rewrite app_nil_r. }
  rewrite Hreplay.
  unfold save_tweets_data, mkdir, write_file. cbn [app].
  rewrite bindE_event, Hmk, bindE_event, Hwr. cbn [snd].
  destruct (for_each (save_response_items w output_dir false) tweets_data (0, 0))
    as [[totals|e] items]; unfold bindE; cbn [fst snd].
  - eexists. split; [reflexivity|]. now right.
  - exists []. split; [now rewrite app_nil_r|now left].
Qed.

Lemma reprocess_replays_item_saving_witness :
  process_existing_tweets_data (archive_world (JArr [photo_response]))
    "data/tweets_data.json" "data" true
  = [EMkdir true ["data"; "individual_tweets"; "20"];
     EWriteJson ["data"; "individual_tweets"; "20"; "tweet.json"] photo_item;
     EMediaGet (JStr "https://pbs.twimg.com/media/a.jpg");
     EMkdir true ["data"; "individual_tweets"; "20"];
     EWriteMedia ["data"; "individual_tweets"; "20"; "photo_1.jpg"]
       (JStr "https://pbs.twimg.com/media/a.jpg");
     EMediaGet (JStr "https://pbs.twimg.com/media/b.png");
     EMkdir true ["data"; "individual_tweets"; "20"];
     EWriteMedia ["data"; "individual_tweets"; "20"; "photo_2.png"]
       (JStr "https://pbs.twimg.com/media/b.png")]
  /\ exists closing,
       snd (save_tweets_data (archive_world (JArr [photo_response]))
              [photo_response] "data" true)
       = [EMkdir false ["data"];
          EWriteJson ["data"; "tweets_data.json"] (JArr [photo_response])]
         ++ process_existing_tweets_data (archive_world (JArr [photo_response]))
              "data/tweets_data.json" "data" true
         ++ closing
       /\ (closing = []
           \/ closing = [EMkdir false ["data"];
                         EWriteJson ["data"; "tweets_data.json"]
                           (JArr [photo_response])]).
Proof.
  split; [reflexivity|].
  apply (reprocess_replays_item_saving (archive_world (JArr [photo_response]))
           [photo_response] "data/tweets_data.json" "data"); reflexivity.
Defined.
